(** * gonpi: the request-execution core of the NPI Registry client

    A shallow embedding of [client.go]: query-parameter construction,
    the single-attempt transport call, the exponential-backoff retry
    engine, the TTL cache, the single-item fetch and the bounded
    fan-out batch fetch, followed by the properties the specification
    states about them. *)

From Stdlib Require Import ZArith Lia Floats.PrimFloat.
From Stdlib Require Floats.SpecFloat Floats.FloatOps.
From stdpp Require Import gmap strings list fin_maps pretty.

Local Open Scope Z_scope.

(** ** Go values *)

(** Go's [int] on the 64-bit targets: a two's-complement 64-bit integer.
    Values are carried as [Z]; [wrapInt] is the wrap-around of [+]. *)
Definition maxInt : Z := 2 ^ 63 - 1.
Definition minInt : Z := - 2 ^ 63.
Definition wrapInt (z : Z) : Z := (z - minInt) mod 2 ^ 64 + minInt.

(** [strconv.Itoa]: the base-10 text of an [int], with a leading [-]
    for negative values. *)
Definition Itoa (i : Z) : string := pretty i.

(** [time.Duration] is an [int64] count of nanoseconds; an instant
    ([time.Time]) is carried as nanoseconds on the clock's axis. *)
Definition Duration : Type := Z.
Definition Time : Type := Z.
Definition Millisecond : Duration := 1000000.
Definition Second : Duration := 1000 * Millisecond.
Definition Minute : Duration := 60 * Second.

(** [t.After(u)] and [t.Add(d)]. *)
Definition After (t u : Time) : bool := bool_decide (u < t).
Definition Add (t : Time) (d : Duration) : Time := t + d.

(** The [error] values the package handles.  [errorString] stands for
    errors made by [errors.New], by [fmt.Errorf] without [%w], and for
    every error that comes from outside the package (net/http, context,
    encoding/json).  [APIError] is [*APIError].  [wrapError msg e] is
    [fmt.Errorf(msg + "%w", e)]: its text is [msg] followed by the text
    of [e], and it unwraps to [e]. *)
Inductive error : Type :=
| errorString (s : string)
| APIError (StatusCode : Z) (Message : string)
| wrapError (msg : string) (err : error).

Fixpoint Error (e : error) : string :=
  match e with
  | errorString s => s
  | APIError _ m => m
  | wrapError msg e' => msg +:+ Error e'
  end.

Definition Unwrap (e : error) : option error :=
  match e with
  | wrapError _ e' => Some e'
  | _ => None
  end.

(** [fmt.Errorf(msg + "%w", err)] where [err] may be the nil error:
    [fmt] then prints the bad-verb marker and wraps nothing. *)
Definition Errorf_w (msg : string) (err : option error) : error :=
  match err with
  | Some e => wrapError msg e
  | None => errorString (msg +:+ "%!w(<nil>)")
  end.

(** ** Constants of the package *)

Definition DefaultMaxRetries : Z := 3.
Definition DefaultLimit : Z := 10.
Definition MaxLimit : Z := 200.
Definition DefaultBaseURL : string := "https://npiregistry.cms.hhs.gov/api".
Definition StatusOK : Z := 200.

(** The time an entry of the cache lives, [5 * time.Minute] in
    [setCached]. *)
Definition defaultTTL : Duration := 5 * Minute.

(** ** Search options and query parameters *)

Record SearchOptions : Type := {
  Number : string;
  EnumerationType : string;
  FirstName : string;
  LastName : string;
  OrganizationName : string;
  TaxonomyDescription : string;
  AddressPurpose : string;
  City : string;
  State : string;
  PostalCode : string;
  CountryCode : string;
  Limit : Z;
  Skip : Z;
  Pretty : bool
}.

(** [url.Values] is [map[string][]string]; [Set] replaces the values of
    a key by the single given value. *)
Abbreviation Values := (gmap string (list string)).

Definition Values_Set (key value : string) (v : Values) : Values :=
  <[key := [value]]> v.

Definition nonEmpty (s : string) : bool := bool_decide (s ≠ "").

(** [buildQueryParams]: every [if] of the source in order. *)
Definition buildQueryParams (opts : SearchOptions) : Values :=
  let params : Values := ∅ in
  let params := Values_Set "version" "2.1" params in
  let params := if nonEmpty (Number opts)
                then Values_Set "number" (Number opts) params else params in
  let params := if nonEmpty (EnumerationType opts)
                then Values_Set "enumeration_type" (EnumerationType opts) params else params in
  let params := if nonEmpty (FirstName opts)
                then Values_Set "first_name" (FirstName opts) params else params in
  let params := if nonEmpty (LastName opts)
                then Values_Set "last_name" (LastName opts) params else params in
  let params := if nonEmpty (OrganizationName opts)
                then Values_Set "organization_name" (OrganizationName opts) params else params in
  let params := if nonEmpty (TaxonomyDescription opts)
                then Values_Set "taxonomy_description" (TaxonomyDescription opts) params else params in
  let params := if nonEmpty (AddressPurpose opts)
                then Values_Set "address_purpose" (AddressPurpose opts) params else params in
  let params := if nonEmpty (City opts)
                then Values_Set "city" (City opts) params else params in
  let params := if nonEmpty (State opts)
                then Values_Set "state" (State opts) params else params in
  let params := if nonEmpty (PostalCode opts)
                then Values_Set "postal_code" (PostalCode opts) params else params in
  let params := if nonEmpty (CountryCode opts)
                then Values_Set "country_code" (CountryCode opts) params else params in
  let limit := Limit opts in
  let limit := if limit =? 0 then DefaultLimit
               else if limit >? MaxLimit then MaxLimit
               else limit in
  let params := Values_Set "limit" (Itoa limit) params in
  let params := if Skip opts >? 0
                then Values_Set "skip" (Itoa (Skip opts)) params else params in
  let params := if Pretty opts
                then Values_Set "pretty" "true" params else params in
  params.

(** A search that sets nothing but a last name and a limit. *)
Definition searchWithLimit (l : Z) : SearchOptions :=
  {| Number := ""; EnumerationType := ""; FirstName := ""; LastName := "Smith";
     OrganizationName := ""; TaxonomyDescription := ""; AddressPurpose := "";
     City := ""; State := ""; PostalCode := ""; CountryCode := "";
     Limit := l; Skip := 0; Pretty := false |}.

(** ** Client, cache and retry configuration *)

Record RetryConfig : Type := {
  MaxRetries : Z;
  InitialDelay : Duration;
  MaxDelay : Duration;
  BackoffMultiplier : float
}.

(** [provider] is a [*Provider]: [None] is the nil pointer. *)
Record cacheEntry (Provider : Type) : Type := {
  provider : option Provider;
  expiresAt : Time
}.
Arguments provider {Provider} _.
Arguments expiresAt {Provider} _.

Record cacheStore (Provider : Type) : Type := {
  enabled : bool;
  data : gmap string (cacheEntry Provider)
}.
Arguments enabled {Provider} _.
Arguments data {Provider} _.

(** The fields of [Client] the core reads.  The [httpClient] is the
    transport, which the embedding meets as [httpDo] below; the tracer
    only records spans. *)
Record Client (Provider : Type) : Type := {
  baseURL : string;
  retry : RetryConfig;
  cache : cacheStore Provider
}.
Arguments baseURL {Provider} _.
Arguments retry {Provider} _.
Arguments cache {Provider} _.

Record APIResponse (Provider : Type) : Type := {
  ResultCount : Z;
  Results : list Provider
}.
Arguments ResultCount {Provider} _.
Arguments Results {Provider} _.

Inductive ClientOption : Type :=
| WithHTTPClient
| WithBaseURL (baseURL : string)
| WithRetry (config : RetryConfig)
| WithCache (ttl : Duration)
| WithTracer.

(** ** The environment of a call *)

(** What one [GET] through [c.httpClient] comes to: the request could
    not be built, [Do] returned an error, or a response arrived with a
    status code and a body. *)
Inductive HTTPOutcome : Type :=
| RequestNotCreated (err : error)
| TransportFailed (err : error)
| Response (StatusCode : Z) (body : string).

(** The environment of one call into the client.  [httpDo n url] is the
    outcome of the [GET] of [url] made by attempt [n]; [ctxDone n] is
    [Some e] when the [select] before attempt [n] receives from
    [ctx.Done()] (with [ctx.Err() = e]) and [None] when the timer fires
    first; [nowLookup] and [nowStore] are the readings of [time.Now()]
    in the cache lookup and in the cache store. *)
Record Env : Type := {
  httpDo : Z -> string -> HTTPOutcome;
  ctxDone : Z -> option error;
  nowLookup : Time;
  nowStore : Time
}.

(** What a call does that an observer can see, in program order. *)
Inductive Event : Type :=
| EvCacheEnabled (b : bool)
| EvRLock
| EvRUnlock
| EvLock
| EvUnlock
| EvCacheLoad (key : string)
| EvCacheStore (key : string)
| EvWait (attempt : Z) (delay : Duration)
| EvAttempt (attempt : Z) (url : string).

Definition isAttempt (ev : Event) : bool :=
  match ev with EvAttempt _ _ => true | _ => false end.
Definition isWait (ev : Event) : bool :=
  match ev with EvWait _ _ => true | _ => false end.
Definition isLock (ev : Event) : bool :=
  match ev with EvRLock | EvLock => true | _ => false end.
Definition isCacheAccess (ev : Event) : bool :=
  match ev with
  | EvRLock | EvRUnlock | EvLock | EvUnlock | EvCacheLoad _ | EvCacheStore _ => true
  | _ => false
  end.

Definition attempts (tr : list Event) : nat := length (filter (fun ev => isAttempt ev = true) tr).
Definition waits (tr : list Event) : nat := length (filter (fun ev => isWait ev = true) tr).

(** The receiver of the methods and the events so far. *)
Record World (Provider : Type) : Type := {
  wClient : Client Provider;
  wEvents : list Event
}.
Arguments wClient {Provider} _.
Arguments wEvents {Provider} _.

(** Methods on [*Client] are state transformers on [World]. *)
Definition M (Provider A : Type) : Type := World Provider -> A * World Provider.

Definition ret {Provider A : Type} (a : A) : M Provider A := fun w => (a, w).

Definition bind {Provider A B : Type} (m : M Provider A) (k : A -> M Provider B) : M Provider B :=
  fun w => let (a, w') := m w in k a w'.

Notation "'let*' x ':=' m 'in' k" := (bind m (fun x => k))
  (at level 10, x pattern, m at level 100, k at level 200).

Definition getClient {Provider : Type} : M Provider (Client Provider) :=
  fun w => (wClient w, w).

Definition emit {Provider : Type} (ev : Event) : M Provider unit :=
  fun w => (tt, {| wClient := wClient w; wEvents := wEvents w ++ [ev] |}).

Definition putCacheData {Provider : Type} (d : gmap string (cacheEntry Provider)) : M Provider unit :=
  fun w =>
    let c := wClient w in
    (tt, {| wClient := {| baseURL := baseURL c; retry := retry c;
                          cache := {| enabled := enabled (cache c); data := d |} |};
            wEvents := wEvents w |}).

(** ** Construction *)

Definition defaultRetry : RetryConfig :=
  {| MaxRetries := DefaultMaxRetries;
     InitialDelay := 100 * Millisecond;
     MaxDelay := 5 * Second;
     BackoffMultiplier := 2.0%float |}.

Definition applyOption {Provider : Type} (opt : ClientOption) (c : Client Provider) : Client Provider :=
  match opt with
  | WithHTTPClient => c
  | WithBaseURL u => {| baseURL := u; retry := retry c; cache := cache c |}
  | WithRetry config => {| baseURL := baseURL c; retry := config; cache := cache c |}
  | WithCache _ =>
      {| baseURL := baseURL c; retry := retry c;
         cache := {| enabled := true; data := data (cache c) |} |}
  | WithTracer => c
  end.

(** [NewClient]: the defaults, then every option in order.  [WithCache
    ttl] also starts the goroutine that runs [cleanupCache] every
    [ttl]. *)
Definition NewClient {Provider : Type} (opts : list ClientOption) : Client Provider :=
  foldl (fun c opt => applyOption opt c)
        {| baseURL := DefaultBaseURL; retry := defaultRetry;
           cache := {| enabled := false; data := ∅ |} |}
        opts.

(** ** The retry decision *)

Definition shouldRetry (err : error) : bool :=
  match err with
  | APIError StatusCode _ => (StatusCode >=? 500) || (StatusCode =? 429)
  | _ => true
  end.

(** ** The core: transport call, retry engine, cache, single fetch *)

(** What the core takes from the packages it imports.
    [jsonDecode body result] is [json.NewDecoder(body).Decode(result)]:
    the decoder writes into the value [result] points to and may fail;
    both what it left in [result] and the error come back.
    [powDelay d m n] is the [float64] expression of the backoff,
    [time.Duration(float64(d) * math.Pow(m, float64(n)))].
    [Encode] is [url.Values.Encode]. *)
Class Runtime (Provider : Type) : Type := {
  jsonDecode : string -> APIResponse Provider -> APIResponse Provider * option error;
  powDelay : Duration -> float -> Z -> Duration;
  Encode : Values -> string
}.

Section Core.

Context {Provider : Type} {rt : Runtime Provider}.

(** [doRequest]: one [GET].  [do] is what the transport does with the
    URL. *)
Definition doRequest (do : string -> HTTPOutcome) (url : string)
    (result : APIResponse Provider) : APIResponse Provider * option error :=
  match do url with
  | RequestNotCreated err => (result, Some (wrapError "failed to create request: " err))
  | TransportFailed err => (result, Some (wrapError "http request failed: " err))
  | Response StatusCode body =>
      if negb (StatusCode =? StatusOK) then
        (result,
         Some (APIError StatusCode
                 ("API returned status " +:+ Itoa StatusCode +:+ ": " +:+ body)))
      else
        match jsonDecode body result with
        | (result', Some err) => (result', Some (wrapError "failed to decode response: " err))
        | (result', None) => (result', None)
        end
  end.

(** The delay computed before attempt [attempt > 0]. *)
Definition backoffDelay (cfg : RetryConfig) (attempt : Z) : Duration :=
  let delay := powDelay (InitialDelay cfg) (BackoffMultiplier cfg) (attempt - 1) in
  if delay >? MaxDelay cfg then MaxDelay cfg else delay.

(** The loop of [doRequestWithRetry], from the test of its condition
    with [attempt] and [lastErr] as they stand.  Every iteration uses
    one unit of [fuel]; [None] says that the loop was still running
    when the fuel ran out. *)
Fixpoint retryLoop (env : Env) (url : string) (fuel : nat) (attempt : Z)
    (lastErr : option error) (result : APIResponse Provider)
    : M Provider (option (APIResponse Provider * option error)) :=
  match fuel with
  | O => ret None
  | S fuel' =>
      let* c := getClient in
      if attempt <=? MaxRetries (retry c) then
        let* cancelled :=
          (if attempt >? 0 then
             let* _ := emit (EvWait attempt (backoffDelay (retry c) attempt)) in
             ret (ctxDone env attempt)
           else ret None) in
        match cancelled with
        | Some ctxErr =>
            ret (Some (result, Some (wrapError "request cancelled: " ctxErr)))
        | None =>
            let* _ := emit (EvAttempt attempt url) in
            match doRequest (httpDo env attempt) url result with
            | (result', None) => ret (Some (result', None))
            | (result', Some err) =>
                if negb (shouldRetry err) then ret (Some (result', Some err))
                else retryLoop env url fuel' (wrapInt (attempt + 1)) (Some err) result'
            end
        end
      else
        ret (Some (result, Some (Errorf_w "max retries exceeded: " lastErr)))
  end.

Definition doRequestWithRetry (env : Env) (fuel : nat) (url : string)
    (result : APIResponse Provider)
    : M Provider (option (APIResponse Provider * option error)) :=
  retryLoop env url fuel 0 None result.

(** [getCached], reading the clock at [now]. *)
Definition getCached (now : Time) (npi : string) : M Provider (option Provider) :=
  let* _ := emit EvRLock in
  let* c := getClient in
  let* _ := emit (EvCacheLoad npi) in
  let found :=
    match data (cache c) !! npi with
    | None => None
    | Some entry => if After now (expiresAt entry) then None else provider entry
    end in
  let* _ := emit EvRUnlock in
  ret found.

(** [setCached], reading the clock at [now]. *)
Definition setCached (now : Time) (npi : string) (p : option Provider) : M Provider unit :=
  let* _ := emit EvLock in
  let* c := getClient in
  let* _ := emit (EvCacheStore npi) in
  let* _ := putCacheData
              (<[npi := {| provider := p; expiresAt := Add now defaultTTL |}]>
                 (data (cache c))) in
  emit EvUnlock.

(** One tick of [cleanupCache], reading the clock at [now]. *)
Definition cleanupCache (now : Time) : M Provider unit :=
  let* _ := emit EvLock in
  let* c := getClient in
  let* _ := putCacheData
              (filter (fun kv => After now (expiresAt kv.2) = false) (data (cache c))) in
  emit EvUnlock.

Definition SearchProviders (env : Env) (fuel : nat) (opts : SearchOptions)
    : M Provider (option (list Provider * option error)) :=
  let* c := getClient in
  let params := buildQueryParams opts in
  let apiURL := baseURL c +:+ "/?" +:+ Encode params in
  let response := {| ResultCount := 0; Results := [] |} in
  let* r := doRequestWithRetry env fuel apiURL response in
  match r with
  | None => ret None
  | Some (_, Some err) => ret (Some ([], Some (wrapError "search providers failed: " err)))
  | Some (response', None) => ret (Some (Results response', None))
  end.

Definition byNumber (npi : string) : SearchOptions :=
  {| Number := npi; EnumerationType := ""; FirstName := ""; LastName := "";
     OrganizationName := ""; TaxonomyDescription := ""; AddressPurpose := "";
     City := ""; State := ""; PostalCode := ""; CountryCode := "";
     Limit := 1; Skip := 0; Pretty := false |}.

Definition GetProviderByNPI (env : Env) (fuel : nat) (npi : string)
    : M Provider (option (option Provider * option error)) :=
  if bool_decide (npi = "") then
    ret (Some (None, Some (errorString "npi cannot be empty")))
  else
    let* c := getClient in
    let* _ := emit (EvCacheEnabled (enabled (cache c))) in
    let* hit := (if enabled (cache c) then getCached (nowLookup env) npi else ret None) in
    match hit with
    | Some p => ret (Some (Some p, None))
    | None =>
        let* r := SearchProviders env fuel (byNumber npi) in
        match r with
        | None => ret None
        | Some (_, Some err) =>
            ret (Some (None,
                       Some (wrapError ("failed to get provider by NPI " +:+ npi +:+ ": ") err)))
        | Some ([], None) =>
            ret (Some (None, Some (errorString ("no provider found with NPI " +:+ npi))))
        | Some (p :: _, None) =>
            let* c' := getClient in
            let* _ := emit (EvCacheEnabled (enabled (cache c'))) in
            let* _ := (if enabled (cache c') then setCached (nowStore env) npi (Some p)
                       else ret tt) in
            ret (Some (Some p, None))
        end
    end.

(** A sequence of fetch operations on one client, each with the
    environment it runs in. *)
Inductive FetchOp : Type :=
| OpGet (env : Env) (fuel : nat) (npi : string)
| OpSearch (env : Env) (fuel : nat) (opts : SearchOptions).

Definition runOp (op : FetchOp) : M Provider unit :=
  match op with
  | OpGet env fuel npi => let* _ := GetProviderByNPI env fuel npi in ret tt
  | OpSearch env fuel opts => let* _ := SearchProviders env fuel opts in ret tt
  end.

Fixpoint runOps (ops : list FetchOp) : M Provider unit :=
  match ops with
  | [] => ret tt
  | op :: ops' => let* _ := runOp op in runOps ops'
  end.

End Core.

(** Every acquisition of the cache lock in a trace comes after a read
    of [c.cache.enabled] that found it set; [seen] says whether such a
    read has happened already. *)
Fixpoint locksChecked (seen : bool) (tr : list Event) : bool :=
  match tr with
  | [] => true
  | ev :: tr' =>
      (negb (isLock ev) || seen) &&
      locksChecked (seen || match ev with EvCacheEnabled true => true | _ => false end) tr'
  end.

(** ** The batch fetch *)

(** [GetProvidersByNPIs] starts one goroutine per key and waits for all
    of them.  The embedding is a transition system: a state holds the
    program point of the main goroutine and of every goroutine it has
    started, the semaphore, the wait group, the shared result map and
    the error channel; an action lets one goroutine take its next
    step, in any interleaving. *)

(** What [c.GetProviderByNPI(ctx, npi)] returned to a goroutine: a
    provider with a nil error, or an error. *)
Inductive FetchResult (Provider : Type) : Type :=
| Fetched (p : Provider)
| Failed (err : error).
Arguments Fetched {Provider} p.
Arguments Failed {Provider} err.

(** The program points of the goroutine of one key: at the send on the
    semaphore; inside [GetProviderByNPI], holding a slot; at the send
    on [errChan]; at the locked store into [results]; at the deferred
    receive from the semaphore; at the deferred [wg.Done()]; returned.
    The last three remember what the fetch returned. *)
Inductive gpc (Provider : Type) : Type :=
| GAcquire
| GFetch
| GSendErr (err : error)
| GStore (p : Provider)
| GRelease (r : FetchResult Provider)
| GWgDone (r : FetchResult Provider)
| GExit (r : FetchResult Provider).
Arguments GAcquire {Provider}.
Arguments GFetch {Provider}.
Arguments GSendErr {Provider} err.
Arguments GStore {Provider} p.
Arguments GRelease {Provider} r.
Arguments GWgDone {Provider} r.
Arguments GExit {Provider} r.

Record goroutine (Provider : Type) : Type := {
  gNpi : string;
  gPc : gpc Provider
}.
Arguments gNpi {Provider} _.
Arguments gPc {Provider} _.

(** The program points of the caller: in the [for ... range npis] loop
    with the keys still to start; at [wg.Wait()]; returned. *)
Inductive mpc (Provider : Type) : Type :=
| MSpawn (rest : list string)
| MWait
| MReturned (results : gmap string Provider) (err : option error).
Arguments MSpawn {Provider} rest.
Arguments MWait {Provider}.
Arguments MReturned {Provider} results err.

Record BatchState (Provider : Type) : Type := {
  bMain : mpc Provider;
  bGo : list (goroutine Provider);
  bSem : nat;
  bWg : nat;
  bResults : gmap string Provider;
  bErrChan : list error;
  bErrCap : nat
}.
Arguments bMain {Provider} _.
Arguments bGo {Provider} _.
Arguments bSem {Provider} _.
Arguments bWg {Provider} _.
Arguments bResults {Provider} _.
Arguments bErrChan {Provider} _.
Arguments bErrCap {Provider} _.

Inductive Action (Provider : Type) : Type :=
| ActMain
| ActGo (i : nat)
| ActFetched (i : nat) (r : FetchResult Provider).
Arguments ActMain {Provider}.
Arguments ActGo {Provider} i.
Arguments ActFetched {Provider} i r.

(** The capacity of [semaphore]. *)
Definition semaphoreCap : nat := 5.

Section Batch.

Context {Provider : Type}.

(** The error of the batch, from the errors received from [errChan]. *)
Definition batchError (errs : list error) : option error :=
  match errs with
  | [] => None
  | first :: _ =>
      Some (errorString ("batch fetch completed with " +:+ Itoa (Z.of_nat (length errs))
                         +:+ " errors: " +:+ Error first))
  end.

Definition fetchError (npi : string) (err : error) : error :=
  wrapError ("failed to fetch NPI " +:+ npi +:+ ": ") err.

(** The state after the check of [len(npis)] and the [make]s. *)
Definition batchInit (npis : list string) : BatchState Provider :=
  {| bMain := MSpawn npis; bGo := []; bSem := 0; bWg := 0;
     bResults := ∅; bErrChan := []; bErrCap := length npis |}.

Definition setMain (m : mpc Provider) (s : BatchState Provider) : BatchState Provider :=
  {| bMain := m; bGo := bGo s; bSem := bSem s; bWg := bWg s;
     bResults := bResults s; bErrChan := bErrChan s; bErrCap := bErrCap s |}.

(** Goroutine [i] moves to [pc]; the other fields are given. *)
Definition moveGo (i : nat) (g : goroutine Provider) (pc : gpc Provider)
    (sem wg : nat) (results : gmap string Provider) (errChan : list error)
    (s : BatchState Provider) : BatchState Provider :=
  {| bMain := bMain s;
     bGo := <[i := {| gNpi := gNpi g; gPc := pc |}]> (bGo s);
     bSem := sem; bWg := wg; bResults := results; bErrChan := errChan;
     bErrCap := bErrCap s |}.

(** The caller's next step.  [wg.Wait()] returns only when the counter
    is zero; then [errChan] is closed and drained. *)
Definition stepMain (s : BatchState Provider) : option (BatchState Provider) :=
  match bMain s with
  | MSpawn (npi :: rest) =>
      Some {| bMain := MSpawn rest;
              bGo := bGo s ++ [{| gNpi := npi; gPc := GAcquire |}];
              bSem := bSem s; bWg := S (bWg s);
              bResults := bResults s; bErrChan := bErrChan s; bErrCap := bErrCap s |}
  | MSpawn [] => Some (setMain MWait s)
  | MWait =>
      if bool_decide (bWg s = 0%nat)
      then Some (setMain (MReturned (bResults s) (batchError (bErrChan s))) s)
      else None
  | MReturned _ _ => None
  end.

(** The next step of goroutine [i], other than the return of its
    fetch.  A send blocks on a full channel, a receive on an empty one,
    and [wg.Done()] must not take the counter below zero. *)
Definition stepGo (i : nat) (s : BatchState Provider) : option (BatchState Provider) :=
  match bGo s !! i with
  | None => None
  | Some g =>
      match gPc g with
      | GAcquire =>
          if bool_decide (bSem s < semaphoreCap)%nat
          then Some (moveGo i g GFetch (S (bSem s)) (bWg s) (bResults s) (bErrChan s) s)
          else None
      | GFetch => None
      | GSendErr err =>
          if bool_decide (length (bErrChan s) < bErrCap s)%nat
          then Some (moveGo i g (GRelease (Failed err)) (bSem s) (bWg s) (bResults s)
                       (bErrChan s ++ [fetchError (gNpi g) err]) s)
          else None
      | GStore p =>
          Some (moveGo i g (GRelease (Fetched p)) (bSem s) (bWg s)
                  (<[gNpi g := p]> (bResults s)) (bErrChan s) s)
      | GRelease r =>
          if bool_decide (0 < bSem s)%nat
          then Some (moveGo i g (GWgDone r) (Nat.pred (bSem s)) (bWg s) (bResults s)
                       (bErrChan s) s)
          else None
      | GWgDone r =>
          if bool_decide (0 < bWg s)%nat
          then Some (moveGo i g (GExit r) (bSem s) (Nat.pred (bWg s)) (bResults s)
                       (bErrChan s) s)
          else None
      | GExit _ => None
      end
  end.

(** The fetch of goroutine [i] returns [r]. *)
Definition stepFetched (i : nat) (r : FetchResult Provider) (s : BatchState Provider)
    : option (BatchState Provider) :=
  match bGo s !! i with
  | None => None
  | Some g =>
      match gPc g with
      | GFetch =>
          Some (moveGo i g (match r with Fetched p => GStore p | Failed err => GSendErr err end)
                  (bSem s) (bWg s) (bResults s) (bErrChan s) s)
      | _ => None
      end
  end.

Definition step (a : Action Provider) (s : BatchState Provider) : option (BatchState Provider) :=
  match a with
  | ActMain => stepMain s
  | ActGo i => stepGo i s
  | ActFetched i r => stepFetched i r s
  end.

Fixpoint run (acts : list (Action Provider)) (s : BatchState Provider)
    : option (BatchState Provider) :=
  match acts with
  | [] => Some s
  | a :: acts' =>
      match step a s with
      | Some s' => run acts' s'
      | None => None
      end
  end.

(** [GetProvidersByNPIs] under the schedule [acts]: what it returns, if
    the schedule is one the program can follow and takes it to its
    return.  The map is [None] for the nil map. *)
Definition GetProvidersByNPIs (npis : list string) (acts : list (Action Provider))
    : option (option (gmap string Provider) * option error) :=
  if bool_decide (npis = []) then
    Some (None, Some (errorString "npi list cannot be empty"))
  else
    match run acts (batchInit npis) with
    | Some s =>
        match bMain s with
        | MReturned results err => Some (Some results, err)
        | _ => None
        end
    | None => None
    end.

Definition reachable (npis : list string) (s : BatchState Provider) : Prop :=
  exists acts, run acts (batchInit npis) = Some s.

(** The state a schedule leads to, when the program can follow it. *)
Definition follows (npis : list string) (acts : list (Action Provider)) : bool :=
  match run acts (batchInit npis) with Some _ => true | None => false end.

Definition stateAfter (npis : list string) (acts : list (Action Provider))
    : BatchState Provider :=
  default (batchInit npis) (run acts (batchInit npis)).

(** Observations of a state. *)
Definition holdsSlot (g : goroutine Provider) : bool :=
  match gPc g with
  | GFetch | GSendErr _ | GStore _ | GRelease _ => true
  | _ => false
  end.

Definition fetching (g : goroutine Provider) : bool :=
  match gPc g with GFetch => true | _ => false end.

Definition exited (g : goroutine Provider) : bool :=
  match gPc g with GExit _ => true | _ => false end.

Definition countGo (f : goroutine Provider -> bool) (gs : list (goroutine Provider)) : nat :=
  sum_list_with (fun g => Nat.b2n (f g)) gs.

(** The fetches in flight: goroutines inside [GetProviderByNPI]. *)
Definition inFlight (s : BatchState Provider) : nat := countGo fetching (bGo s).

(** The key and provider of a goroutine whose fetch succeeded and that
    has stored it; the error, as sent, of one whose fetch failed and
    that has sent it. *)
Definition storedBy (g : goroutine Provider) : option (string * Provider) :=
  match gPc g with
  | GRelease (Fetched p) | GWgDone (Fetched p) | GExit (Fetched p) => Some (gNpi g, p)
  | _ => None
  end.

Definition sentBy (g : goroutine Provider) : option error :=
  match gPc g with
  | GRelease (Failed err) | GWgDone (Failed err) | GExit (Failed err) =>
      Some (fetchError (gNpi g) err)
  | _ => None
  end.

Definition running (g : goroutine Provider) : bool := negb (exited g).

(** The keys the caller has not started yet. *)
Definition restOf (s : BatchState Provider) : list string :=
  match bMain s with MSpawn rest => rest | _ => [] end.



Definition successes (s : BatchState Provider) : list (string * Provider) :=
  omap storedBy (bGo s).

Definition failures (s : BatchState Provider) : list error :=
  omap sentBy (bGo s).

(** What holds in every state the program reaches. *)
Record Inv (npis : list string) (s : BatchState Provider) : Prop := {
  inv_keys : (gNpi <$> bGo s) ++ restOf s = npis;
  inv_sem : bSem s = countGo holdsSlot (bGo s);
  inv_sem_cap : (bSem s <= semaphoreCap)%nat;
  inv_wg : bWg s = countGo running (bGo s);
  inv_cap : bErrCap s = length npis;
  inv_err : bErrChan s ≡ₚ failures s;
  inv_res_in : forall k p, bResults s !! k = Some p -> (k, p) ∈ successes s;
  inv_res_dom : forall k p, (k, p) ∈ successes s -> is_Some (bResults s !! k);
  inv_ret : forall res err,
      bMain s = MReturned res err ->
      bWg s = 0%nat /\ res = bResults s /\ err = batchError (bErrChan s)
}.

End Batch.

(** ** The backoff expression in float64 *)

(** [float64(z)] of an integer: the nearest [float64], ties to even. *)
Definition float64 (z : Z) : float :=
  FloatOps.SF2Prim (SpecFloat.binary_normalize FloatOps.prec FloatOps.emax z 0 false).

(** The integer part of a finite [float64], towards zero. *)
Definition truncate (f : float) : option Z :=
  match FloatOps.Prim2SF f with
  | SpecFloat.S754_zero _ => Some 0
  | SpecFloat.S754_finite s m e =>
      let a := Z.shiftl (Zpos m) e in Some (if s then - a else a)
  | _ => None
  end.

Definition inInt64 (f : float) : bool :=
  match truncate f with
  | Some z => (minInt <=? z) && (z <=? maxInt)
  | None => false
  end.

(** The conversion [int64(f)], here [time.Duration(f)]: the integer
    part when an [int64] can hold it.  Otherwise the language leaves
    the result to the implementation: [indefinite] is what it gives. *)
Definition int64 (indefinite : Z) (f : float) : Z :=
  match truncate f with
  | Some z => if (minInt <=? z) && (z <=? maxInt) then z else indefinite
  | None => indefinite
  end.

(** On amd64 the conversion is the instruction [CVTTSD2SQ], whose
    result out of range is the smallest [int64]. *)
Definition amd64Indefinite : Z := minInt.

Definition Signbit (x : float) : bool :=
  match FloatOps.Prim2SF x with
  | SpecFloat.S754_zero s | SpecFloat.S754_infinity s | SpecFloat.S754_finite s _ _ => s
  | SpecFloat.S754_nan => false
  end.

Definition IsNaN (x : float) : bool := negb (PrimFloat.eqb x x).

Definition IsInf (x : float) : bool := PrimFloat.eqb (abs x) infinity.

(** [isOddInt(y)] of [math], for [y] the [float64] of the integer [yv]. *)
Definition isOddInt (yv : Z) : bool :=
  if PrimFloat.leb (float64 (2 ^ 53)) (abs (float64 yv)) then false else Z.odd yv.

(** The loop [for i := int64(yi); i != 0; i >>= 1] of [math.Pow], over
    the bits of [i]: the answer is kept as [a1 * 2**ae] and the power
    of [x] as [x1 * 2**xe].  The squaring after the last bit is of no
    use to the result and is left out. *)
Fixpoint powLoop (i : positive) (a1 : float) (ae : Z) (x1 : float) (xe : Z) : float * Z :=
  if (xe <? - 2 ^ 12) || (2 ^ 12 <? xe) then (a1, ae + xe)
  else
    let '(a1, ae) := match i with
                     | xH | xI _ => ((a1 * x1)%float, ae + xe)
                     | xO _ => (a1, ae)
                     end in
    match i with
    | xH => (a1, ae)
    | xI i' | xO i' =>
        let x1 := (x1 * x1)%float in
        let xe := 2 * xe in
        if PrimFloat.ltb x1 0.5 then powLoop i' a1 ae (x1 + x1)%float (xe - 1)
        else powLoop i' a1 ae x1 xe
    end.

(** [math.Pow(x, y)] for [x] a zero and [y] an integer other than 0. *)
Definition powZero (x : float) (yv : Z) : float :=
  if yv =? 1 then x
  else if yv <? 0 then
    if Signbit x && isOddInt yv then neg_infinity else infinity
  else
    if Signbit x && isOddInt yv then x else zero.

(** [math.Pow(x, float64(n))], after [func pow] of Go's [math] package.
    The exponent is the [float64] of an integer, so [Modf] leaves no
    fraction and the cases of a fractional, infinite or NaN exponent
    do not arise; [yv] is its value.  [FloatOps.Z.frexp] and
    [FloatOps.Z.ldexp] are [math.Frexp] and [math.Ldexp]. *)
Definition Pow (x : float) (n : Z) : float :=
  let y := float64 n in
  let yv := default 0 (truncate y) in
  if (yv =? 0) || PrimFloat.eqb x one then one
  else if yv =? 1 then x
  else if IsNaN x then nan
  else if PrimFloat.eqb x zero then powZero x yv
  else if IsInf x then
    if Signbit x then powZero (1 / x) (- yv)
    else if yv <? 0 then zero else infinity
  else
    let yi := Z.abs yv in
    if 2 ^ 63 <=? yi then
      if PrimFloat.eqb x (-1) then one
      else if Bool.eqb (PrimFloat.ltb (abs x) one) (0 <? yv) then zero
      else infinity
    else
      let '(x1, xe) := FloatOps.Z.frexp x in
      let '(a1, ae) := match yi with
                       | Zpos i => powLoop i one 0 x1 xe
                       | _ => (one, 0)
                       end in
      if yv <? 0 then FloatOps.Z.ldexp (1 / a1) (- ae) else FloatOps.Z.ldexp a1 ae.

(** The product of the backoff, [float64(d) * math.Pow(m, float64(n))],
    and its conversion to a [time.Duration]. *)
Definition delayProduct (d : Duration) (m : float) (n : Z) : float :=
  (float64 d * Pow m n)%float.

Definition float64Delay (indefinite : Z) (d : Duration) (m : float) (n : Z) : Duration :=
  int64 indefinite (delayProduct d m n).

(** A runtime whose backoff expression is the one of the code. *)
Definition withFloat64Delay {Provider : Type} (indefinite : Z) (rt : Runtime Provider)
    : Runtime Provider :=
  {| jsonDecode := jsonDecode; powDelay := float64Delay indefinite; Encode := Encode |}.

(** ** Notions the properties are stated with *)

Definition addEvents {Provider : Type} (w : World Provider) (evs : list Event) : World Provider :=
  {| wClient := wClient w; wEvents := wEvents w ++ evs |}.

Definition waitEvents {Provider : Type} {rt : Runtime Provider} (cfg : RetryConfig) (attempt : Z) : list Event :=
  if attempt >? 0 then [EvWait attempt (backoffDelay cfg attempt)] else [].

(** An attempt fails retryably when [doRequest] returns an error that
    [shouldRetry] accepts, whatever [result] holds at that point. *)
Definition failsRetryably {Provider : Type} {rt : Runtime Provider} (do : string -> HTTPOutcome) (url : string) : Prop :=
  forall result : APIResponse Provider,
    exists err, snd (doRequest do url result) = Some err /\ shouldRetry err = true.

(** The statuses the specification calls fatal: not 2xx, below 500 and
    not 429. *)
Definition fatalStatus (s : Z) : bool :=
  negb ((200 <=? s) && (s <? 300)) && (s <? 500) && negb (s =? 429).

(** The events the retry engine can emit under a configuration: an
    attempt numbered within the budget on the URL it was given, or a
    wait before a retry, with the delay of that retry. *)
Definition retryEvent {Provider : Type} {rt : Runtime Provider}
    (cfg : RetryConfig) (url : string) (ev : Event) : Prop :=
  match ev with
  | EvAttempt n u => u = url /\ 0 <= n <= MaxRetries cfg
  | EvWait n d => 0 < n <= MaxRetries cfg /\ d = backoffDelay cfg n /\ d <= MaxDelay cfg
  | _ => False
  end.

Section ErrorKinds.

Context {Provider : Type} {rt : Runtime Provider}.
Variables (env : Env) (url : string).

(** The kinds of error the retry engine returns. *)
Definition cancelledError (e : error) : Prop :=
  exists n ctxErr, 0 < n /\ ctxDone env n = Some ctxErr /\
                   e = wrapError "request cancelled: " ctxErr.

Definition attemptError (e : error) : Prop :=
  exists n (r : APIResponse Provider), snd (doRequest (httpDo env n) url r) = Some e.

Definition exhaustedError (e : error) : Prop :=
  exists lastErr,
    e = Errorf_w "max retries exceeded: " lastErr /\
    forall last, lastErr = Some last -> shouldRetry last = true /\ attemptError last.

Definition fatalError (e : error) : Prop :=
  attemptError e /\
  exists status msg, e = APIError status msg /\ status <> 200 /\ status < 500 /\ status <> 429.

End ErrorKinds.

(** The URL [SearchProviders] builds. *)
Definition apiURL {Provider : Type} {rt : Runtime Provider}
    (c : Client Provider) (opts : SearchOptions) : string :=
  baseURL c +:+ "/?" +:+ Encode (buildQueryParams opts).

(** What the cache of a client answers for a key at a time: the
    provider of an entry that has not expired, when the cache is
    enabled. *)
Definition cached {Provider : Type} (c : Client Provider) (now : Time) (npi : string)
    : option Provider :=
  if enabled (cache c) then
    match data (cache c) !! npi with
    | None => None
    | Some entry => if After now (expiresAt entry) then None else provider entry
    end
  else None.

(** The events of the cache lookup and of the cache store of a fetch,
    by the value read from [c.cache.enabled]. *)
Definition lookupEvents (b : bool) (npi : string) : list Event :=
  EvCacheEnabled b :: (if b then [EvRLock; EvCacheLoad npi; EvRUnlock] else []).

Definition storeEvents (b : bool) (npi : string) : list Event :=
  EvCacheEnabled b :: (if b then [EvLock; EvCacheStore npi; EvUnlock] else []).

(** The world after the cache store of a fetch. *)
Definition afterStore {Provider : Type} (now : Time) (npi : string) (p : Provider)
    (w : World Provider) : World Provider :=
  let c := wClient w in
  {| wClient :=
       if enabled (cache c)
       then {| baseURL := baseURL c; retry := retry c;
               cache := {| enabled := true;
                           data := <[npi := {| provider := Some p;
                                               expiresAt := Add now defaultTTL |}]>
                                     (data (cache c)) |} |}
       else c;
     wEvents := wEvents w ++ storeEvents (enabled (cache c)) npi |}.

(** [buildQueryParams] as a list of conditional [Set]s, in the order of
    the source: the condition, the key and the value of each. *)
Definition paramsOf (opts : SearchOptions) : list (bool * string * string) :=
  [(true, "version", "2.1");
   (nonEmpty (Number opts), "number", Number opts);
   (nonEmpty (EnumerationType opts), "enumeration_type", EnumerationType opts);
   (nonEmpty (FirstName opts), "first_name", FirstName opts);
   (nonEmpty (LastName opts), "last_name", LastName opts);
   (nonEmpty (OrganizationName opts), "organization_name", OrganizationName opts);
   (nonEmpty (TaxonomyDescription opts), "taxonomy_description", TaxonomyDescription opts);
   (nonEmpty (AddressPurpose opts), "address_purpose", AddressPurpose opts);
   (nonEmpty (City opts), "city", City opts);
   (nonEmpty (State opts), "state", State opts);
   (nonEmpty (PostalCode opts), "postal_code", PostalCode opts);
   (nonEmpty (CountryCode opts), "country_code", CountryCode opts);
   (true, "limit",
    Itoa (if Limit opts =? 0 then DefaultLimit
          else if Limit opts >? MaxLimit then MaxLimit else Limit opts));
   (Skip opts >? 0, "skip", Itoa (Skip opts));
   (Pretty opts, "pretty", "true")].

Definition setAll (l : list (bool * string * string)) (m : Values) : Values :=
  foldl (fun m '(b, k, v) => if (b : bool) then Values_Set k v m else m) m l.

Definition keysOf (l : list (bool * string * string)) : list string := (l.*1).*2.

(** The keys [buildQueryParams] can set. *)
Definition queryKeys : list string :=
  ["version"; "number"; "enumeration_type"; "first_name"; "last_name";
   "organization_name"; "taxonomy_description"; "address_purpose"; "city"; "state";
   "postal_code"; "country_code"; "limit"; "skip"; "pretty"].

(** Options and the client they build. *)
Definition isWithCache (opt : ClientOption) : bool :=
  match opt with WithCache _ => true | _ => false end.

Definition isWithRetry (opt : ClientOption) : bool :=
  match opt with WithRetry _ => true | _ => false end.

Definition isWithBaseURL (opt : ClientOption) : bool :=
  match opt with WithBaseURL _ => true | _ => false end.

Definition applyOptions {Provider : Type} (c : Client Provider) (opts : list ClientOption) : Client Provider :=
  foldl (fun c opt => applyOption opt c) c opts.

(** The program points between the return of a goroutine's fetch and
    its own return: the store or the send, and the two deferred calls. *)
Definition pastFetch {Provider : Type} (g : goroutine Provider) : bool :=
  match gPc g with
  | GSendErr _ | GStore _ | GRelease _ | GWgDone _ => true
  | _ => false
  end.


(** ** Sample inputs *)

(** A runtime for the examples: providers are strings, a body decodes
    to the one provider it names unless it is ["bad"] or ["none"], the
    backoff doubles, and only the number is encoded. *)
Definition sampleRuntime : Runtime string :=
  {| jsonDecode := fun body result =>
       if String.eqb body "bad"
       then (result, Some (errorString "unexpected end of JSON input"))
       else if String.eqb body "none"
       then ({| ResultCount := 0; Results := [] |}, None)
       else ({| ResultCount := 1; Results := [body] |}, None);
     powDelay := fun d _ n => d * 2 ^ n;
     Encode := fun v =>
       match v !! "number" with
       | Some (n :: _) => "number=" +:+ n
       | _ => ""
       end |}.

Definition emptyResponse : APIResponse string := {| ResultCount := 0; Results := [] |}.

(** A client made by [NewClient] with the given options, before any
    event. *)
Definition freshWorld (opts : list ClientOption) : World string :=
  {| wClient := NewClient opts; wEvents := [] |}.

Definition retryTwice : RetryConfig :=
  {| MaxRetries := 2; InitialDelay := 10 * Millisecond;
     MaxDelay := 50 * Millisecond; BackoffMultiplier := 2.0%float |}.

Definition noRetry : RetryConfig :=
  {| MaxRetries := 0; InitialDelay := 10 * Millisecond;
     MaxDelay := 50 * Millisecond; BackoffMultiplier := 2.0%float |}.

(** A server that answers every request with the given status and
    body, under a context that is never done. *)
Definition serverAlways (status : Z) (body : string) : Env :=
  {| httpDo := fun _ _ => Response status body;
     ctxDone := fun _ => None;
     nowLookup := 0; nowStore := 0 |}.

(** The same server under a context that is cancelled during the wait
    before attempt [n]. *)
Definition cancelledBefore (n : Z) (status : Z) (body : string) : Env :=
  {| httpDo := fun _ _ => Response status body;
     ctxDone := fun k => if k =? n then Some (errorString "context canceled") else None;
     nowLookup := 0; nowStore := 0 |}.

(** A batch of three keys of which the second fails, under a schedule
    that runs the three goroutines side by side. *)
Definition threeKeys : list string := ["1234567890"; "9999999999"; "1111111111"].

Definition threeKeysSchedule : list (Action string) :=
  [ActMain; ActMain; ActMain; ActMain;
   ActGo 0; ActGo 1; ActGo 2;
   ActFetched 2 (Fetched "provider 1111111111");
   ActFetched 1 (Failed (errorString "no provider found with NPI 9999999999"));
   ActFetched 0 (Fetched "provider 1234567890");
   ActGo 1; ActGo 0; ActGo 2;
   ActGo 0; ActGo 1; ActGo 2;
   ActGo 2; ActGo 1; ActGo 0;
   ActMain].

Definition threeKeysResults : gmap string string :=
  <["1234567890" := "provider 1234567890"]>
    (<["1111111111" := "provider 1111111111"]> ∅).

(** A batch of seven keys, all started, five of them inside their
    fetch and two waiting for a slot. *)
Definition sevenKeys : list string := ["1"; "2"; "3"; "4"; "5"; "6"; "7"].

Definition sevenKeysSchedule : list (Action string) :=
  [ActMain; ActMain; ActMain; ActMain; ActMain; ActMain; ActMain;
   ActGo 6; ActGo 0; ActGo 3; ActGo 1; ActGo 5].

(** A server that is busy for the first [n] attempts and then answers
    with the provider ["p"]. *)
Definition recoversAt (n : Z) : Env :=
  {| httpDo := fun k _ => if k <? n then Response 503 "busy" else Response 200 "p";
     ctxDone := fun _ => None;
     nowLookup := 0; nowStore := 0 |}.

Definition negativeRetry : RetryConfig :=
  {| MaxRetries := -1; InitialDelay := 10 * Millisecond;
     MaxDelay := 50 * Millisecond; BackoffMultiplier := 2.0%float |}.

(** A client with the cache enabled, after one fetch that the server
    answered. *)
Definition fetchedWorld : World string :=
  snd (GetProviderByNPI (rt := sampleRuntime) (serverAlways 200 "p") 5 "1234567890"
         (freshWorld [WithCache Minute])).

(** The seven keys again, when the fetch of the last one has failed and
    its goroutine is about to send the error. *)
Definition sevenKeysOneFailed : list (Action string) :=
  sevenKeysSchedule ++ [ActFetched 6 (Failed (errorString "no provider found with NPI 7"))].

(** The defaults with a budget of 38 retries. *)
Definition retryThirtyEight : RetryConfig :=
  {| MaxRetries := 38; InitialDelay := 100 * Millisecond;
     MaxDelay := 5 * Second; BackoffMultiplier := 2.0%float |}.

(** * Properties *)

(** ** Properties of the query parameters *)

Lemma Values_Set_lookup key value v : Values_Set key value v !! key = Some [value].
Proof. apply lookup_insert_eq. Qed.

Lemma Values_Set_lookup_ne key key' value v :
  key ≠ key' -> Values_Set key value v !! key' = v !! key'.
Proof. intros Hne. by apply lookup_insert_ne. Qed.

Lemma buildQueryParams_limit_value opts :
  buildQueryParams opts !! "limit"
  = Some [Itoa (if Limit opts =? 0 then DefaultLimit
                else if Limit opts >? MaxLimit then MaxLimit
                else Limit opts)].
Proof.
  unfold buildQueryParams. cbv zeta.
  match goal with |- context [Values_Set "limit" _ ?m] => generalize m end.
  intros m.
  destruct (Pretty opts); destruct (Skip opts >? 0);
    repeat (rewrite Values_Set_lookup_ne by discriminate);
    apply Values_Set_lookup.
Qed.

(** C10: the [limit] parameter is 10 when [Limit] is 0, 200 when [Limit]
    exceeds 200, and [Limit] itself otherwise; a negative [Limit] is
    sent unchanged. *)
Theorem buildQueryParams_limit opts :
  (Limit opts = 0 -> buildQueryParams opts !! "limit" = Some [Itoa 10]) /\
  (200 < Limit opts -> buildQueryParams opts !! "limit" = Some [Itoa 200]) /\
  (Limit opts <> 0 -> Limit opts <= 200 ->
     buildQueryParams opts !! "limit" = Some [Itoa (Limit opts)]) /\
  (Limit opts < 0 -> buildQueryParams opts !! "limit" = Some [Itoa (Limit opts)]).
Proof.
  rewrite buildQueryParams_limit_value. unfold DefaultLimit, MaxLimit.
  repeat split; intros.
  - by replace (Limit opts =? 0) with true by lia.
  - replace (Limit opts =? 0) with false by lia.
    by replace (Limit opts >? 200) with true by lia.
  - replace (Limit opts =? 0) with false by lia.
    by replace (Limit opts >? 200) with false by lia.
  - replace (Limit opts =? 0) with false by lia.
    by replace (Limit opts >? 200) with false by lia.
Qed.

Lemma buildQueryParams_limit_witness :
  buildQueryParams (searchWithLimit (-5)) !! "limit" = Some ["-5"] /\
  buildQueryParams (searchWithLimit 0) !! "limit" = Some ["10"] /\
  buildQueryParams (searchWithLimit 500) !! "limit" = Some ["200"] /\
  buildQueryParams (searchWithLimit 50) !! "limit" = Some ["50"].
Proof.
  split; [| split; [| split]].
  - apply (proj2 (proj2 (proj2 (buildQueryParams_limit (searchWithLimit (-5)))))).
    simpl. lia.
  - apply (proj1 (buildQueryParams_limit (searchWithLimit 0))). reflexivity.
  - apply (proj1 (proj2 (buildQueryParams_limit (searchWithLimit 500)))).
    simpl. lia.
  - apply (proj1 (proj2 (proj2 (buildQueryParams_limit (searchWithLimit 50)))));
      simpl; lia.
Defined.

(** ** Properties of the retry engine *)

Ltac retry_events :=
  repeat (apply Forall_cons_2; [simpl; auto|]); apply Forall_nil_2.

Section RetryProperties.

Context {Provider : Type} {rt : Runtime Provider}.
Variables (env : Env) (url : string).

Lemma addEvents_nil (w : World Provider) : addEvents w [] = w.
Proof. destruct w. unfold addEvents. simpl. by rewrite app_nil_r. Qed.

Lemma addEvents_app (w : World Provider) evs1 evs2 :
  addEvents (addEvents w evs1) evs2 = addEvents w (evs1 ++ evs2).
Proof. unfold addEvents. simpl. by rewrite app_assoc. Qed.

Lemma attempts_app tr1 tr2 : attempts (tr1 ++ tr2) = (attempts tr1 + attempts tr2)%nat.
Proof. unfold attempts. by rewrite filter_app, length_app. Qed.

Lemma waits_app tr1 tr2 : waits (tr1 ++ tr2) = (waits tr1 + waits tr2)%nat.
Proof. unfold waits. by rewrite filter_app, length_app. Qed.

Lemma attempts_waitEvents cfg attempt : attempts (waitEvents cfg attempt) = 0%nat.
Proof. unfold waitEvents. by destruct (attempt >? 0). Qed.

(** The loop leaves when its condition fails. *)
Lemma retryLoop_exit fuel attempt lastErr result (w : World Provider) :
  MaxRetries (retry (wClient w)) < attempt ->
  retryLoop env url (S fuel) attempt lastErr result w
  = (Some (result, Some (Errorf_w "max retries exceeded: " lastErr)), w).
Proof.
  intros Hlt. simpl. unfold bind, getClient, ret.
  by replace (attempt <=? MaxRetries (retry (wClient w))) with false by lia.
Qed.

(** The wait before a retry is abandoned when the context is done. *)
Lemma retryLoop_cancel fuel attempt lastErr result (w : World Provider) ctxErr :
  0 < attempt <= MaxRetries (retry (wClient w)) ->
  ctxDone env attempt = Some ctxErr ->
  retryLoop env url (S fuel) attempt lastErr result w
  = (Some (result, Some (wrapError "request cancelled: " ctxErr)),
     addEvents w [EvWait attempt (backoffDelay (retry (wClient w)) attempt)]).
Proof.
  intros [Hpos Hle] Hdone. simpl. unfold bind, getClient, ret, emit.
  replace (attempt <=? MaxRetries (retry (wClient w))) with true by lia.
  replace (attempt >? 0) with true by lia.
  by rewrite Hdone.
Qed.

(** One iteration that reaches its attempt. *)
Lemma retryLoop_attempt fuel attempt lastErr result (w : World Provider) :
  attempt <= MaxRetries (retry (wClient w)) ->
  (0 < attempt -> ctxDone env attempt = None) ->
  let w' := addEvents w (waitEvents (retry (wClient w)) attempt ++ [EvAttempt attempt url]) in
  retryLoop env url (S fuel) attempt lastErr result w
  = match doRequest (httpDo env attempt) url result with
    | (result', None) => (Some (result', None), w')
    | (result', Some err) =>
        if negb (shouldRetry err) then (Some (result', Some err), w')
        else retryLoop env url fuel (wrapInt (attempt + 1)) (Some err) result' w'
    end.
Proof.
  intros Hle Hdone. simpl. unfold bind, getClient, ret, emit, waitEvents, addEvents.
  replace (attempt <=? MaxRetries (retry (wClient w))) with true by lia.
  destruct (attempt >? 0) eqn:Hpos; simpl.
  - rewrite Hdone by lia. simpl. rewrite <- app_assoc. simpl.
    destruct (doRequest _ _ _) as [result' [err|]]; [|done].
    by destruct (negb (shouldRetry err)).
  - destruct (doRequest _ _ _) as [result' [err|]]; [|done].
    by destruct (negb (shouldRetry err)).
Qed.

Lemma wrapInt_id z : minInt <= z <= maxInt -> wrapInt z = z.
Proof.
  unfold wrapInt, minInt, maxInt. intros Hz.
  rewrite Z.mod_small; lia.
Qed.

Lemma waits_waitEvents cfg attempt :
  waits (waitEvents cfg attempt) = if attempt >? 0 then 1%nat else 0%nat.
Proof. unfold waitEvents. by destruct (attempt >? 0). Qed.

(** [n] attempts in a row that fail retryably, none of their waits
    cancelled, take the loop from [attempt] to [attempt + n]. *)
Lemma retryLoop_advance (n : nat) :
  forall attempt lastErr result (w : World Provider) fuel,
  0 <= attempt ->
  attempt + Z.of_nat n <= MaxRetries (retry (wClient w)) + 1 ->
  attempt + Z.of_nat n <= maxInt ->
  (forall k, attempt <= k < attempt + Z.of_nat n -> failsRetryably (httpDo env k) url) ->
  (forall k, attempt <= k < attempt + Z.of_nat n -> 0 < k -> ctxDone env k = None) ->
  exists lastErr' result' evs,
    retryLoop env url (n + fuel) attempt lastErr result w
    = retryLoop env url fuel (attempt + Z.of_nat n) lastErr' result' (addEvents w evs) /\
    attempts evs = n /\
    waits evs = (if attempt =? 0 then Nat.pred n else n) /\
    Forall (fun ev => isAttempt ev = true \/ isWait ev = true) evs /\
    (n = 0%nat -> lastErr' = lastErr /\ result' = result /\ evs = []) /\
    ((0 < n)%nat ->
     exists r err, lastErr' = Some err /\
       snd (doRequest (httpDo env (attempt + Z.of_nat n - 1)) url r) = Some err /\
       shouldRetry err = true).
Proof.
  induction n as [|n IH]; intros attempt lastErr result w fuel Hpos Hle Hmax Hfail Hwait.
  - exists lastErr, result, []. rewrite addEvents_nil, Z.add_0_r. simpl.
    repeat split; try done; try lia. by destruct (attempt =? 0).
  - destruct (Hfail attempt ltac:(lia) result) as (err & Herr & Hretry).
    change (S n + fuel)%nat with (S (n + fuel)).
    rewrite retryLoop_attempt by (try lia; intros; apply Hwait; lia).
    destruct (doRequest (httpDo env attempt) url result) as [result1 o] eqn:Hdo.
    simpl in Herr. subst o. rewrite Hretry. simpl negb. cbv iota.
    rewrite wrapInt_id by (unfold minInt, maxInt in *; lia).
    set (evs0 := waitEvents (retry (wClient w)) attempt ++ [EvAttempt attempt url]).
    destruct (IH (attempt + 1) (Some err) result1 (addEvents w evs0) fuel)
      as (lastErr' & result' & evs & Hrun & Hatt & Hwts & Hall & Hzero & Hlast);
      try (simpl; lia).
    { intros k Hk. apply Hfail. lia. }
    { intros k Hk Hk0. apply Hwait; lia. }
    exists lastErr', result', (evs0 ++ evs).
    rewrite Hrun, addEvents_app.
    replace (attempt + 1 + Z.of_nat n) with (attempt + Z.of_nat (S n)) by lia.
    split; [done|]. split; [|split; [|split; [|split]]].
    + unfold evs0. rewrite !attempts_app, attempts_waitEvents, Hatt. simpl. lia.
    + unfold evs0. rewrite !waits_app, waits_waitEvents, Hwts. simpl.
      replace (attempt + 1 =? 0) with false by lia.
      destruct (attempt =? 0) eqn:H0.
      * replace (attempt >? 0) with false by lia. simpl. lia.
      * replace (attempt >? 0) with true by lia. simpl. lia.
    + apply Forall_app. split; [|done]. unfold evs0, waitEvents.
      destruct (attempt >? 0); simpl; retry_events.
    + intros Hn. lia.
    + intros _. destruct n as [|n].
      * destruct (Hzero eq_refl) as (-> & _ & _).
        exists result, err. replace (attempt + Z.of_nat 1 - 1) with attempt by lia.
        rewrite Hdo. by repeat split.
      * destruct (Hlast ltac:(lia)) as (r & err' & -> & Hr & Hs).
        exists r, err'.
        replace (attempt + Z.of_nat (S (S n)) - 1) with (attempt + 1 + Z.of_nat (S n) - 1) by lia.
        by repeat split.
Qed.

(** C1: with [MaxRetries = R], every attempt failing retryably and no
    wait cancelled, the retry engine makes exactly [R + 1] attempts
    (and [R] waits) and returns an error that wraps the failure of the
    last attempt; with [MaxRetries = 0] it makes exactly one attempt
    and no wait, whatever the attempt returns. *)
Theorem doRequestWithRetry_exhausted result (w : World Provider) fuel :
  (forall R,
     MaxRetries (retry (wClient w)) = R -> 0 <= R < maxInt ->
     (Z.to_nat (R + 1) < fuel)%nat ->
     (forall k, 0 <= k <= R -> failsRetryably (httpDo env k) url) ->
     (forall k, 0 < k <= R -> ctxDone env k = None) ->
     exists result' w' lastErr r,
       doRequestWithRetry env fuel url result w
       = (Some (result', Some (wrapError "max retries exceeded: " lastErr)), w') /\
       snd (doRequest (httpDo env R) url r) = Some lastErr /\
       wClient w' = wClient w /\
       attempts (wEvents w') = (attempts (wEvents w) + Z.to_nat (R + 1))%nat /\
       waits (wEvents w') = (waits (wEvents w) + Z.to_nat R)%nat) /\
  (MaxRetries (retry (wClient w)) = 0 -> (1 < fuel)%nat ->
     exists r,
       doRequestWithRetry env fuel url result w
       = (Some r, addEvents w [EvAttempt 0 url])).
Proof.
  split.
  - intros R HR HRrange Hfuel Hfail Hwait.
    destruct (retryLoop_advance (Z.to_nat (R + 1)) 0 None result w (fuel - Z.to_nat (R + 1)))
      as (lastErr' & result' & evs & Hrun & Hatt & Hwts & _ & _ & Hlast);
      try lia.
    { intros k Hk. apply Hfail. lia. }
    { intros k Hk Hk0. apply Hwait. lia. }
    destruct Hlast as (r & err & -> & Hr & _); [lia|].
    exists result', (addEvents w evs), err, r.
    unfold doRequestWithRetry.
    replace fuel with (Z.to_nat (R + 1) + (fuel - Z.to_nat (R + 1)))%nat at 1 by lia.
    rewrite Hrun.
    destruct (fuel - Z.to_nat (R + 1))%nat as [|fuel'] eqn:Hf; [lia|].
    rewrite retryLoop_exit by (simpl; lia).
    replace (0 + Z.of_nat (Z.to_nat (R + 1)) - 1) with R in Hr by lia.
    simpl. rewrite attempts_app, waits_app, Hatt, Hwts. simpl.
    repeat split; try done. lia.
  - intros HR Hfuel. unfold doRequestWithRetry.
    destruct fuel as [|[|fuel]]; try lia.
    rewrite retryLoop_attempt by (try lia; intros; lia).
    unfold waitEvents. simpl app.
    destruct (doRequest (httpDo env 0) url result) as [result' [err|]]; [|by eexists].
    destruct (negb (shouldRetry err)); [by eexists|].
    rewrite retryLoop_exit; [by eexists|]. simpl. rewrite HR.
    rewrite wrapInt_id; unfold minInt, maxInt; lia.
Qed.

(** The cap of the backoff: the delay waited is the smaller of
    [MaxDelay] and the [float64] expression. *)
Lemma backoffDelay_min cfg attempt :
  backoffDelay cfg attempt
  = Z.min (MaxDelay cfg) (powDelay (InitialDelay cfg) (BackoffMultiplier cfg) (attempt - 1)).
Proof.
  unfold backoffDelay.
  destruct (Z.gtb_spec (powDelay (InitialDelay cfg) (BackoffMultiplier cfg) (attempt - 1))
              (MaxDelay cfg)); lia.
Qed.

Lemma shouldRetry_APIError status msg :
  shouldRetry (APIError status msg) = true <-> 500 <= status \/ status = 429.
Proof. simpl. rewrite orb_true_iff. lia. Qed.

Lemma doRequest_not_ok (do : string -> HTTPOutcome) status body (result : APIResponse Provider) :
  do url = Response status body -> status <> StatusOK ->
  doRequest do url result
  = (result,
     Some (APIError status ("API returned status " +:+ Itoa status +:+ ": " +:+ body))).
Proof.
  intros Hdo Hne. unfold doRequest. rewrite Hdo.
  by replace (status =? StatusOK) with false by lia.
Qed.

(** C3: a response whose status is not 2xx, below 500 and not 429 ends
    the retry engine at that attempt: the [*APIError] itself is
    returned, the attempt is the last event (no wait and no attempt
    follow it), and when it is the first attempt it is the only event;
    [shouldRetry] accepts an [*APIError] exactly for 429 and for 500
    and above. *)
Theorem doRequestWithRetry_fatal result (w : World Provider) fuel :
  (forall status msg,
     shouldRetry (APIError status msg) = true <-> 500 <= status \/ status = 429) /\
  (forall n status body,
     0 <= n <= MaxRetries (retry (wClient w)) ->
     MaxRetries (retry (wClient w)) <= maxInt ->
     (forall k, 0 <= k < n -> failsRetryably (httpDo env k) url) ->
     (forall k, 0 < k <= n -> ctxDone env k = None) ->
     httpDo env n url = Response status body ->
     fatalStatus status = true ->
     (Z.to_nat n < fuel)%nat ->
     let err := APIError status ("API returned status " +:+ Itoa status +:+ ": " +:+ body) in
     exists result' evs,
       doRequestWithRetry env fuel url result w
       = (Some (result', Some err), addEvents w (evs ++ [EvAttempt n url])) /\
       shouldRetry err = false /\
       attempts evs = Z.to_nat n /\
       (n = 0 -> evs = [])).
Proof.
  split; [apply shouldRetry_APIError|].
  intros n status body Hn Hint Hfail Hwait Hdo Hfatal Hfuel err.
  assert (Hstatus : status <> StatusOK /\ ~ (500 <= status \/ status = 429)).
  { unfold fatalStatus, StatusOK in *.
    rewrite !andb_true_iff, !negb_true_iff, andb_false_iff in Hfatal. lia. }
  destruct Hstatus as [Hne Hnr].
  assert (Hs : shouldRetry err = false).
  { destruct (shouldRetry err) eqn:E; [|done]. apply shouldRetry_APIError in E. tauto. }
  destruct (retryLoop_advance (Z.to_nat n) 0 None result w (fuel - Z.to_nat n))
    as (lastErr' & result' & evs & Hrun & Hatt & Hwts & _ & Hzero & _);
    try lia.
  { intros k Hk. apply Hfail. lia. }
  { intros k Hk Hk0. apply Hwait. lia. }
  replace (Z.to_nat n + (fuel - Z.to_nat n))%nat with fuel in Hrun by lia.
  destruct (fuel - Z.to_nat n)%nat as [|fuel'] eqn:Hf; [lia|].
  replace (0 + Z.of_nat (Z.to_nat n)) with n in Hrun by lia.
  rewrite retryLoop_attempt in Hrun by (simpl; try lia; intros; apply Hwait; lia).
  rewrite (doRequest_not_ok _ status body) in Hrun by done.
  fold err in Hrun. rewrite Hs in Hrun. simpl negb in Hrun. cbv iota in Hrun.
  rewrite addEvents_app in Hrun. unfold doRequestWithRetry.
  destruct (decide (n = 0)) as [->|Hn0].
  - destruct (Hzero eq_refl) as (_ & -> & ->).
    exists result, []. rewrite Hrun. by repeat split.
  - exists result', (evs ++ waitEvents (retry (wClient (addEvents w evs))) n).
    rewrite Hrun, <- app_assoc. repeat split; try done.
    by rewrite attempts_app, attempts_waitEvents, Hatt, Nat.add_0_r.
Qed.

Lemma Error_cancelled_ne_exhausted ctxErr lastErr :
  Error (wrapError "request cancelled: " ctxErr)
  <> Error (Errorf_w "max retries exceeded: " lastErr).
Proof. destruct lastErr; simpl; discriminate. Qed.

(** C5: when the context is done during the wait before attempt [n],
    the retry engine returns the cancellation error at once: the wait
    is its last event, the attempts made are those before it, and the
    error differs, also in its text, from the one returned when the
    retries are used up. *)
Theorem doRequestWithRetry_cancelled result (w : World Provider) fuel n ctxErr :
  0 < n <= MaxRetries (retry (wClient w)) ->
  MaxRetries (retry (wClient w)) <= maxInt ->
  (forall k, 0 <= k < n -> failsRetryably (httpDo env k) url) ->
  (forall k, 0 < k < n -> ctxDone env k = None) ->
  ctxDone env n = Some ctxErr ->
  (Z.to_nat n < fuel)%nat ->
  let err := wrapError "request cancelled: " ctxErr in
  exists result' evs,
    doRequestWithRetry env fuel url result w
    = (Some (result', Some err),
       addEvents w (evs ++ [EvWait n (backoffDelay (retry (wClient w)) n)])) /\
    attempts evs = Z.to_nat n /\
    attempts (wEvents (addEvents w (evs ++ [EvWait n (backoffDelay (retry (wClient w)) n)])))
    = (attempts (wEvents w) + Z.to_nat n)%nat /\
    Unwrap err = Some ctxErr /\
    (forall lastErr,
       err <> Errorf_w "max retries exceeded: " lastErr /\
       Error err <> Error (Errorf_w "max retries exceeded: " lastErr)).
Proof.
  intros Hn Hint Hfail Hwait Hdone Hfuel err.
  destruct (retryLoop_advance (Z.to_nat n) 0 None result w (fuel - Z.to_nat n))
    as (lastErr' & result' & evs & Hrun & Hatt & _);
    try lia.
  { intros k Hk. apply Hfail. lia. }
  { intros k Hk Hk0. apply Hwait. lia. }
  exists result', evs. unfold doRequestWithRetry.
  replace fuel with (Z.to_nat n + (fuel - Z.to_nat n))%nat at 1 by lia.
  rewrite Hrun.
  destruct (fuel - Z.to_nat n)%nat as [|fuel'] eqn:Hf; [lia|].
  replace (0 + Z.of_nat (Z.to_nat n)) with n by lia.
  rewrite (retryLoop_cancel _ _ _ _ _ ctxErr) by (simpl; first [lia | done]).
  rewrite addEvents_app. simpl wClient.
  repeat split; try done.
  - unfold addEvents. cbn [wEvents]. rewrite !attempts_app, Hatt.
    change (attempts [EvWait n (backoffDelay (retry (wClient w)) n)]) with 0%nat. lia.
  - intros Heq. apply (Error_cancelled_ne_exhausted ctxErr lastErr). by rewrite <- Heq.
  - apply Error_cancelled_ne_exhausted.
Qed.

(** C8, as the code has it: [doRequest] succeeds exactly on status 200
    with a body that decodes; every other status, the other 2xx
    included, gives the [*APIError] of that status, which [shouldRetry]
    accepts for 429 and for 500 and above; a 200 whose body does not
    decode gives a wrapped decoding error, which [shouldRetry]
    accepts. *)
Theorem doRequest_status_boundary status body (result : APIResponse Provider) :
  let r := doRequest (fun _ => Response status body) url result in
  (snd r = None <-> status = 200 /\ snd (jsonDecode body result) = None) /\
  (status <> 200 ->
     r = (result,
          Some (APIError status ("API returned status " +:+ Itoa status +:+ ": " +:+ body))) /\
     (shouldRetry (APIError status ("API returned status " +:+ Itoa status +:+ ": " +:+ body))
      = true <-> 500 <= status \/ status = 429)) /\
  (status = 200 -> forall err, snd (jsonDecode body result) = Some err ->
     r = (fst (jsonDecode body result), Some (wrapError "failed to decode response: " err)) /\
     shouldRetry (wrapError "failed to decode response: " err) = true).
Proof.
  intros r. subst r. unfold doRequest, StatusOK.
  destruct (decide (status = 200)) as [->|Hne].
  - simpl. destruct (jsonDecode body result) as [result' [e|]]; simpl.
    + split; [split; [discriminate|intros [_ ?]; discriminate]|].
      split; [done|]. intros _ err [= <-]. done.
    + split; [done|]. split; [done|]. intros _ err [=].
  - replace (status =? 200) with false by lia. simpl.
    split; [split; [discriminate|intros [? _]; done]|].
    split; [|done]. intros _. split; [done|]. rewrite orb_true_iff. lia.
Qed.

(** What an iteration that has made its attempt goes on to. *)
Lemma retryLoop_continues fuel attempt result (w : World Provider) :
  (forall attempt' lastErr' result' (w' : World Provider),
     exists evs,
       snd (retryLoop env url fuel attempt' lastErr' result' w') = addEvents w' evs /\
       Forall (fun ev => isAttempt ev = true \/ isWait ev = true) evs) ->
  exists evs,
    snd (match doRequest (httpDo env attempt) url result with
         | (result', None) =>
             (Some (result', None),
              addEvents w (waitEvents (retry (wClient w)) attempt ++ [EvAttempt attempt url]))
         | (result', Some err) =>
             if negb (shouldRetry err)
             then (Some (result', Some err),
                   addEvents w (waitEvents (retry (wClient w)) attempt
                                ++ [EvAttempt attempt url]))
             else retryLoop env url fuel (wrapInt (attempt + 1)) (Some err) result'
                    (addEvents w (waitEvents (retry (wClient w)) attempt
                                  ++ [EvAttempt attempt url]))
         end)
    = addEvents w evs /\
    Forall (fun ev => isAttempt ev = true \/ isWait ev = true) evs.
Proof.
  intros IH.
  assert (Hevs : Forall (fun ev => isAttempt ev = true \/ isWait ev = true)
                   (waitEvents (retry (wClient w)) attempt ++ [EvAttempt attempt url])).
  { unfold waitEvents. destruct (attempt >? 0); simpl; retry_events. }
  destruct (doRequest _ _ _) as [result' [err|]]; [|by eexists].
  destruct (negb (shouldRetry err)); [by eexists|].
  destruct (IH (wrapInt (attempt + 1)) (Some err) result'
              (addEvents w (waitEvents (retry (wClient w)) attempt
                            ++ [EvAttempt attempt url])))
    as (evs & -> & Hall).
  rewrite addEvents_app. eexists. split; [done|]. by apply Forall_app.
Qed.

(** The retry engine only waits and attempts: whatever it returns, the
    client is as before and the new events are waits and attempts. *)
Lemma retryLoop_events fuel :
  forall attempt lastErr result (w : World Provider),
  exists evs,
    snd (retryLoop env url fuel attempt lastErr result w) = addEvents w evs /\
    Forall (fun ev => isAttempt ev = true \/ isWait ev = true) evs.
Proof.
  induction fuel as [|fuel IH]; intros attempt lastErr result w.
  { exists []. by rewrite addEvents_nil. }
  destruct (decide (attempt <= MaxRetries (retry (wClient w)))) as [Hle|Hgt];
    [|rewrite retryLoop_exit by lia; exists []; by rewrite addEvents_nil].
  destruct (ctxDone env attempt) as [ctxErr|] eqn:Hdone;
    [destruct (decide (0 < attempt)) as [Hpos|Hzero]|].
  - rewrite (retryLoop_cancel _ _ _ _ _ ctxErr) by done.
    eexists. split; [done|]. retry_events.
  - rewrite retryLoop_attempt by (done || lia). by apply retryLoop_continues.
  - rewrite retryLoop_attempt by done. by apply retryLoop_continues.
Qed.

(** With a budget that is not negative the engine reaches the transport
    at least once. *)
Lemma doRequestWithRetry_events fuel result (w : World Provider) :
  exists evs,
    snd (doRequestWithRetry env fuel url result w) = addEvents w evs /\
    Forall (fun ev => isAttempt ev = true \/ isWait ev = true) evs /\
    (0 <= MaxRetries (retry (wClient w)) -> (0 < fuel)%nat -> (1 <= attempts evs)%nat).
Proof.
  unfold doRequestWithRetry.
  destruct (decide (0 <= MaxRetries (retry (wClient w)) /\ (0 < fuel)%nat)) as [[HR Hf]|Hno].
  - destruct fuel as [|fuel]; [lia|].
    rewrite retryLoop_attempt by (done || lia).
    unfold waitEvents. simpl app.
    destruct (doRequest _ _ _) as [result' [err|]];
      [|exists [EvAttempt 0 url]; repeat split; try done;
        apply Forall_cons_2; [simpl; auto|apply Forall_nil_2]].
    destruct (negb (shouldRetry err));
      [exists [EvAttempt 0 url]; repeat split; try done;
        apply Forall_cons_2; [simpl; auto|apply Forall_nil_2]|].
    destruct (retryLoop_events fuel (wrapInt (0 + 1)) (Some err) result'
                (addEvents w [EvAttempt 0 url])) as (evs & -> & Hall).
    rewrite addEvents_app. eexists. split; [done|]. split.
    + apply Forall_cons_2; [simpl; auto|done].
    + intros _ _. change (EvAttempt 0 url :: evs) with ([EvAttempt 0 url] ++ evs).
      rewrite attempts_app. change (attempts [EvAttempt 0 url]) with 1%nat. lia.
  - destruct (retryLoop_events fuel 0 None result w) as (evs & -> & Hall).
    exists evs. repeat split; try done. intros. tauto.
Qed.

End RetryProperties.

(** ** Properties of the backoff delay *)

Section BackoffProperties.

Context {Provider : Type} (rt : Runtime Provider) (indefinite : Z).

Lemma int64_inInt64 f z :
  truncate f = Some z -> minInt <= z <= maxInt -> int64 indefinite f = z.
Proof.
  intros Hf Hz. unfold int64. rewrite Hf.
  replace (minInt <=? z) with true by lia. by replace (z <=? maxInt) with true by lia.
Qed.

Lemma int64_indefinite f : inInt64 f = false -> int64 indefinite f = indefinite.
Proof.
  unfold inInt64, int64. destruct (truncate f) as [z|]; [|done]. by intros ->.
Qed.

Lemma first_attempt_unwaited env url fuel result (w : World Provider) :
  0 <= MaxRetries (retry (wClient w)) ->
  exists evs,
    snd (doRequestWithRetry (rt := withFloat64Delay indefinite rt) env (S fuel) url result w)
    = addEvents w (EvAttempt 0 url :: evs).
Proof.
  intros HR. unfold doRequestWithRetry. rewrite retryLoop_attempt by (done || lia).
  unfold waitEvents. simpl app.
  destruct (doRequest _ _ _) as [result' [err|]]; [|by exists []].
  destruct (negb (shouldRetry err)); [by exists []|].
  destruct (retryLoop_events (rt := withFloat64Delay indefinite rt) env url fuel
              (wrapInt (0 + 1)) (Some err) result' (addEvents w [EvAttempt 0 url]))
    as (evs & Hsnd & _).
  exists evs. by rewrite Hsnd, addEvents_app.
Qed.

Lemma in_range (lo len : nat) (n : Z) :
  Z.of_nat lo <= n < Z.of_nat (lo + len) -> In n (map Z.of_nat (seq lo len)).
Proof.
  intros Hn. apply in_map_iff. exists (Z.to_nat n). split; [lia|]. apply in_seq. lia.
Qed.

(** C4: with the backoff expression of the code, evaluated in
    [float64] and converted to [time.Duration], the first attempt is
    made without a wait, and the delay before retry [n >= 1] is the
    smaller of [MaxDelay] and the integer part of the product as long
    as an [int64] holds that part: with the defaults 100 ms, 200 ms,
    400 ms, ... capped at 5 s, for the retries 1 to 37.  From retry 38
    on (checked to 100) the product is beyond the [int64] range, the
    conversion gives what the implementation gives, and the delay is
    the smaller of [MaxDelay] and that value: on amd64 the smallest
    [int64], a negative delay in place of the cap of 5 s. *)
Theorem backoffDelay_float64 :
  let go := withFloat64Delay indefinite rt in
  let amd64 := withFloat64Delay amd64Indefinite rt in
  (forall env url fuel result (w : World Provider),
     0 <= MaxRetries (retry (wClient w)) ->
     exists evs,
       snd (doRequestWithRetry (rt := go) env (S fuel) url result w)
       = addEvents w (EvAttempt 0 url :: evs)) /\
  (forall cfg n z,
     truncate (delayProduct (InitialDelay cfg) (BackoffMultiplier cfg) (n - 1)) = Some z ->
     minInt <= z <= maxInt ->
     backoffDelay (rt := go) cfg n = Z.min (MaxDelay cfg) z) /\
  (forall cfg n,
     inInt64 (delayProduct (InitialDelay cfg) (BackoffMultiplier cfg) (n - 1)) = false ->
     backoffDelay (rt := go) cfg n = Z.min (MaxDelay cfg) indefinite) /\
  (forall n, 1 <= n <= 37 ->
     backoffDelay (rt := go) defaultRetry n
     = Z.min (5 * Second) (100 * Millisecond * 2 ^ (n - 1))) /\
  (forall n, 38 <= n <= 100 ->
     backoffDelay (rt := go) defaultRetry n = Z.min (5 * Second) indefinite) /\
  backoffDelay (rt := amd64) retryThirtyEight 38 = minInt /\
  Z.min (MaxDelay retryThirtyEight) (InitialDelay retryThirtyEight * 2 ^ (38 - 1)) = 5 * Second /\
  wEvents (snd (doRequestWithRetry (rt := amd64) (serverAlways 503 "busy") 40 "u"
                  {| ResultCount := 0; Results := [] |}
                  {| wClient := NewClient [WithRetry retryThirtyEight]; wEvents := [] |}))
  !! 75%nat
  = Some (EvWait 38 minInt).
Proof.
  intros go amd64.
  assert (Hin : forall cfg n z,
            truncate (delayProduct (InitialDelay cfg) (BackoffMultiplier cfg) (n - 1)) = Some z ->
            minInt <= z <= maxInt ->
            backoffDelay (rt := go) cfg n = Z.min (MaxDelay cfg) z).
  { intros cfg n z Hz Hr. rewrite backoffDelay_min. f_equal.
    by apply int64_inInt64. }
  assert (Hout : forall cfg n,
            inInt64 (delayProduct (InitialDelay cfg) (BackoffMultiplier cfg) (n - 1)) = false ->
            backoffDelay (rt := go) cfg n = Z.min (MaxDelay cfg) indefinite).
  { intros cfg n Hf. rewrite backoffDelay_min. f_equal. by apply int64_indefinite. }
  split; [apply first_attempt_unwaited|]. split; [exact Hin|]. split; [exact Hout|].
  split; [|split; [|split; [|split]]].
  - intros n Hn.
    assert (Hall : forallb
              (fun n => match truncate (delayProduct (InitialDelay defaultRetry)
                                          (BackoffMultiplier defaultRetry) (n - 1)) with
                        | Some z => (z =? 100 * Millisecond * 2 ^ (n - 1)) && (z <=? maxInt)
                        | None => false
                        end)
              (map Z.of_nat (seq 1 37)) = true) by (vm_compute; reflexivity).
    pose proof (proj1 (forallb_forall _ _) Hall n (in_range 1 37 n ltac:(lia))) as Hn'.
    simpl in Hn'.
    destruct (truncate _) as [z|] eqn:Hz; [|done].
    apply andb_prop in Hn' as [Heq Hle]. apply Z.eqb_eq in Heq.
    rewrite (Hin defaultRetry n z Hz); [by rewrite Heq|].
    split; [|lia]. rewrite Heq. unfold minInt, Millisecond.
    pose proof (Z.pow_pos_nonneg 2 (n - 1)). lia.
  - intros n Hn.
    assert (Hall : forallb
              (fun n => negb (inInt64 (delayProduct (InitialDelay defaultRetry)
                                         (BackoffMultiplier defaultRetry) (n - 1))))
              (map Z.of_nat (seq 38 63)) = true) by (vm_compute; reflexivity).
    pose proof (proj1 (forallb_forall _ _) Hall n (in_range 38 63 n ltac:(lia))) as Hn'.
    apply negb_true_iff in Hn'.
    by rewrite (Hout defaultRetry n Hn').
  - vm_compute. reflexivity.
  - vm_compute. reflexivity.
  - vm_compute. reflexivity.
Qed.

End BackoffProperties.

(** ** Properties of the cache and of the single fetch *)

Section CacheProperties.

Context {Provider : Type} {rt : Runtime Provider}.

Lemma getCached_run now npi (w : World Provider) :
  getCached now npi w
  = (match data (cache (wClient w)) !! npi with
     | None => None
     | Some entry => if After now (expiresAt entry) then None else provider entry
     end,
     addEvents w [EvRLock; EvCacheLoad npi; EvRUnlock]).
Proof.
  unfold getCached, bind, emit, getClient, ret, addEvents. simpl.
  by rewrite <- !app_assoc.
Qed.

Lemma setCached_run now npi p (w : World Provider) :
  setCached now npi p w
  = (tt,
     {| wClient :=
          {| baseURL := baseURL (wClient w); retry := retry (wClient w);
             cache := {| enabled := enabled (cache (wClient w));
                         data := <[npi := {| provider := p;
                                             expiresAt := Add now defaultTTL |}]>
                                   (data (cache (wClient w))) |} |};
        wEvents := wEvents w ++ [EvLock; EvCacheStore npi; EvUnlock] |}).
Proof.
  unfold setCached, bind, emit, getClient, putCacheData, ret. simpl.
  by rewrite <- !app_assoc.
Qed.

(** C6: [setCached] at time [t0] creates or replaces the entry of the
    key with expiry [t0] plus the five-minute TTL; a [getCached] at
    [t1] then returns the stored provider when [t1] is not after the
    expiry and nothing when it is, and in both cases leaves the cache
    as it was. *)
Theorem setCached_getCached (w : World Provider) npi (p : Provider) (t0 t1 : Time) :
  let w1 := snd (setCached t0 npi (Some p) w) in
  data (cache (wClient w1))
  = <[npi := {| provider := Some p; expiresAt := t0 + defaultTTL |}]>
      (data (cache (wClient w))) /\
  defaultTTL = 5 * Minute /\
  (t1 <= t0 + defaultTTL -> fst (getCached t1 npi w1) = Some p) /\
  (t0 + defaultTTL < t1 -> fst (getCached t1 npi w1) = None) /\
  wClient (snd (getCached t1 npi w1)) = wClient w1.
Proof.
  intros w1. subst w1. rewrite setCached_run. cbn [snd wClient cache data].
  split; [done|]. split; [done|]. rewrite !getCached_run. cbn [fst snd wClient cache data].
  rewrite lookup_insert_eq. cbn [expiresAt provider]. unfold After, Add.
  repeat split.
  - intros Hle. by rewrite bool_decide_eq_false_2 by lia.
  - intros Hlt. by rewrite bool_decide_eq_true_2 by lia.
Qed.

(** A tick of [cleanupCache] keeps exactly the entries that have not
    expired. *)
Lemma cleanupCache_lookup now (w : World Provider) npi entry :
  data (cache (wClient (snd (cleanupCache now w)))) !! npi = Some entry
  <-> data (cache (wClient w)) !! npi = Some entry /\ ~ expiresAt entry < now.
Proof.
  unfold cleanupCache, bind, emit, getClient, putCacheData, ret. simpl.
  rewrite map_lookup_filter_Some. simpl. unfold After.
  rewrite bool_decide_eq_false. done.
Qed.

Lemma SearchProviders_events env fuel opts (w : World Provider) :
  exists evs,
    snd (SearchProviders env fuel opts w) = addEvents w evs /\
    Forall (fun ev => isAttempt ev = true \/ isWait ev = true) evs /\
    (0 <= MaxRetries (retry (wClient w)) -> (0 < fuel)%nat -> (1 <= attempts evs)%nat).
Proof.
  unfold SearchProviders, bind, getClient, ret.
  match goal with |- context [doRequestWithRetry env fuel ?u ?r w] =>
    destruct (doRequestWithRetry_events env u fuel r w) as (evs & Hsnd & Hall & Hatt);
    destruct (doRequestWithRetry env fuel u r w) as [res w'] end.
  simpl in Hsnd. subst w'. exists evs.
  by destruct res as [[response' [err|]]|].
Qed.

Lemma no_cache_access_of_retry evs :
  Forall (fun ev => isAttempt ev = true \/ isWait ev = true) evs ->
  Forall (fun ev => isCacheAccess ev = false) evs.
Proof.
  intros Hall. eapply Forall_impl; [exact Hall|].
  intros ev [Hev|Hev]; by destruct ev.
Qed.

(** A fetch on a client whose cache is disabled. *)
Lemma GetProviderByNPI_disabled env fuel npi (w : World Provider) :
  enabled (cache (wClient w)) = false ->
  exists evs,
    snd (GetProviderByNPI env fuel npi w) = addEvents w evs /\
    Forall (fun ev => isCacheAccess ev = false) evs /\
    (npi <> "" -> 0 <= MaxRetries (retry (wClient w)) -> (0 < fuel)%nat ->
     (1 <= attempts evs)%nat).
Proof.
  intros Hoff. unfold GetProviderByNPI.
  case_bool_decide as Hnpi.
  { exists []. rewrite addEvents_nil. by repeat split. }
  unfold bind at 1. unfold getClient at 1. unfold bind at 1. unfold emit at 1.
  rewrite Hoff. unfold bind at 1. unfold ret at 1.
  unfold bind at 1.
  match goal with |- context [SearchProviders env fuel ?o ?w0] =>
    destruct (SearchProviders_events env fuel o w0) as (evs & Hsnd & Hall & Hatt);
    destruct (SearchProviders env fuel o w0) as [res w'] end.
  simpl in Hsnd. subst w'. fold (addEvents w [EvCacheEnabled false]).
  rewrite addEvents_app.
  assert (Hacc : Forall (fun ev => isCacheAccess ev = false) ([EvCacheEnabled false] ++ evs)).
  { apply Forall_app. split; [by apply Forall_cons_2|by apply no_cache_access_of_retry]. }
  assert (Hone : npi <> "" -> 0 <= MaxRetries (retry (wClient w)) -> (0 < fuel)%nat ->
                 (1 <= attempts ([EvCacheEnabled false] ++ evs))%nat).
  { intros _ HR Hf. rewrite attempts_app. specialize (Hatt HR Hf). lia. }
  destruct res as [[[|p ps] [err|]]|]; try (by eexists).
  unfold bind, getClient, emit, ret. simpl. rewrite Hoff.
  exists (([EvCacheEnabled false] ++ evs) ++ [EvCacheEnabled false]).
  split; [unfold addEvents; simpl; by rewrite <- !app_assoc|]. split.
  - apply Forall_app. split; [done|]. by apply Forall_cons_2.
  - intros. rewrite attempts_app. specialize (Hone H H0 H1). lia.
Qed.

Lemma runOps_disabled ops :
  forall w : World Provider,
  enabled (cache (wClient w)) = false ->
  exists evs,
    snd (runOps ops w) = addEvents w evs /\
    Forall (fun ev => isCacheAccess ev = false) evs.
Proof.
  induction ops as [|op ops IH]; intros w Hoff.
  - exists []. by rewrite addEvents_nil.
  - simpl. unfold bind at 1.
    assert (Hop : exists evs, snd (runOp op w) = addEvents w evs /\
                    Forall (fun ev => isCacheAccess ev = false) evs).
    { destruct op as [env fuel npi|env fuel opts]; simpl; unfold bind, ret.
      - destruct (GetProviderByNPI_disabled env fuel npi w Hoff) as (evs & Hsnd & Hall & _).
        destruct (GetProviderByNPI env fuel npi w). by exists evs.
      - destruct (SearchProviders_events env fuel opts w) as (evs & Hsnd & Hall & _).
        destruct (SearchProviders env fuel opts w). exists evs.
        split; [done|]. by apply no_cache_access_of_retry. }
    destruct Hop as (evs1 & Hsnd & Hall1).
    destruct (runOp op w) as [[] w1]. simpl in Hsnd. subst w1.
    destruct (IH (addEvents w evs1) Hoff) as (evs2 & -> & Hall2).
    rewrite addEvents_app. eexists. split; [done|]. by apply Forall_app.
Qed.

Lemma locksChecked_seen tr : locksChecked true tr = true.
Proof. induction tr as [|ev tr IH]; [done|]. simpl. by rewrite orb_true_r, IH. Qed.

Lemma locksChecked_no_locks tr :
  forall seen, Forall (fun ev => isCacheAccess ev = false) tr -> locksChecked seen tr = true.
Proof.
  induction tr as [|ev tr IH]; intros seen Hall; [done|].
  apply Forall_cons_1 in Hall as [Hev Hall]. simpl.
  rewrite IH by done. by destruct ev.
Qed.

(** In every fetch the new events start with the read of
    [c.cache.enabled], so every lock is taken after it. *)
Lemma GetProviderByNPI_locksChecked env fuel npi (w : World Provider) :
  exists evs,
    wEvents (snd (GetProviderByNPI env fuel npi w)) = wEvents w ++ evs /\
    locksChecked false evs = true.
Proof.
  destruct (enabled (cache (wClient w))) eqn:Hen.
  - unfold GetProviderByNPI. case_bool_decide as Hnpi.
    { exists []. by rewrite app_nil_r. }
    assert (Hgoal : forall (m : M Provider (option (option Provider * option error)))
                      (w1 : World Provider),
               wEvents w1 = wEvents w ++ [EvCacheEnabled true] ->
               (forall w2, exists evs, wEvents (snd (m w2)) = wEvents w2 ++ evs) ->
               exists evs, wEvents (snd (m w1)) = wEvents w ++ evs /\
                           locksChecked false evs = true).
    { intros m w1 Hw1 Hm. destruct (Hm w1) as (evs & Hevs).
      exists (EvCacheEnabled true :: evs). rewrite Hevs, Hw1, <- app_assoc.
      split; [done|]. simpl. apply locksChecked_seen. }
    unfold bind at 1. unfold getClient at 1. unfold bind at 1. unfold emit at 1.
    rewrite Hen. apply Hgoal; [done|]. intros w2.
    unfold bind at 1. rewrite getCached_run.
    destruct (match data (cache (wClient w2)) !! npi with
              | Some entry => if After (nowLookup env) (expiresAt entry) then None
                              else provider entry
              | None => None
              end) as [p|]; [by eexists|].
    unfold bind at 1.
    match goal with |- context [SearchProviders env fuel ?o ?w0] =>
      destruct (SearchProviders_events env fuel o w0) as (evs & Hsnd & _);
      destruct (SearchProviders env fuel o w0) as [res w'] end.
    simpl in Hsnd. subst w'. rewrite addEvents_app.
    destruct res as [[[|p ps] [err|]]|]; try (by eexists).
    unfold bind at 1. unfold getClient at 1. unfold bind at 1. unfold emit at 1.
    cbn [addEvents wClient wEvents].
    destruct (enabled (cache (wClient w2))).
    + unfold bind at 1. rewrite setCached_run. unfold ret. cbn [snd wEvents].
      rewrite <- !app_assoc. by eexists.
    + unfold bind, ret. cbn [snd wEvents]. rewrite <- !app_assoc. by eexists.
  - destruct (GetProviderByNPI_disabled env fuel npi w Hen) as (evs & -> & Hall & _).
    exists evs. split; [done|]. by apply locksChecked_no_locks.
Qed.

(** C7: on a client whose cache is disabled, no sequence of fetches
    touches the cache: the client is as before and no event is a lock,
    a load or a store; a fetch of a non-empty key is never answered
    from the cache but reaches the transport; the client made by
    [NewClient] without options has its cache disabled and empty; and
    in every fetch, disabled or not, a read of [c.cache.enabled] that
    found it set comes before every lock. *)
Theorem cache_disabled_untouched (w : World Provider) :
  enabled (cache (wClient w)) = false ->
  (forall ops, exists evs,
     snd (runOps ops w) = addEvents w evs /\
     Forall (fun ev => isCacheAccess ev = false) evs) /\
  (forall env fuel npi,
     npi <> "" -> 0 <= MaxRetries (retry (wClient w)) -> (0 < fuel)%nat ->
     (attempts (wEvents w) < attempts (wEvents (snd (GetProviderByNPI env fuel npi w))))%nat) /\
  (enabled (cache (NewClient (Provider := Provider) [])) = false /\
   data (cache (NewClient (Provider := Provider) [])) = ∅) /\
  (forall env fuel npi (w' : World Provider), exists evs,
     wEvents (snd (GetProviderByNPI env fuel npi w')) = wEvents w' ++ evs /\
     locksChecked false evs = true).
Proof.
  intros Hoff. split; [|split; [|split]].
  - intros ops. by apply runOps_disabled.
  - intros env fuel npi Hnpi HR Hf.
    destruct (GetProviderByNPI_disabled env fuel npi w Hoff) as (evs & -> & _ & Hatt).
    simpl. rewrite attempts_app. specialize (Hatt Hnpi HR Hf). lia.
  - done.
  - intros. apply GetProviderByNPI_locksChecked.
Qed.

End CacheProperties.

(** ** Properties of the batch fetch *)

Section BatchProperties.

Context {Provider : Type}.

Implicit Types (s : BatchState Provider) (g : goroutine Provider).

Lemma sum_list_with_insert {A} (f : A -> nat) (l : list A) i x y :
  l !! i = Some x ->
  (sum_list_with f (<[i:=y]> l) + f x = sum_list_with f l + f y)%nat.
Proof.
  revert i. induction l as [|a l IH]; intros [|i] Hi; simplify_eq/=; [lia|].
  specialize (IH i Hi). lia.
Qed.

Lemma countGo_insert (f : goroutine Provider -> bool) l i g g' :
  l !! i = Some g ->
  (countGo f (<[i:=g']> l) + Nat.b2n (f g) = countGo f l + Nat.b2n (f g'))%nat.
Proof. apply (sum_list_with_insert (fun g => Nat.b2n (f g))). Qed.

Lemma countGo_app (f : goroutine Provider -> bool) l1 l2 :
  countGo f (l1 ++ l2) = (countGo f l1 + countGo f l2)%nat.
Proof. apply sum_list_with_app. Qed.


Lemma countGo_lookup (f : goroutine Provider -> bool) l i g :
  l !! i = Some g -> f g = true -> (0 < countGo f l)%nat.
Proof.
  revert i. induction l as [|a l IH]; intros [|i] Hi Hg; simplify_eq/=.
  - rewrite Hg. simpl. lia.
  - specialize (IH i Hi Hg). lia.
Qed.

Lemma countGo_zero (f : goroutine Provider -> bool) l :
  countGo f l = 0%nat -> Forall (fun g => f g = false) l.
Proof.
  induction l as [|a l IH]; simpl; intros Hz; [constructor|].
  destruct (f a) eqn:Ha; simpl in Hz; [lia|]. constructor; [done|]. apply IH. lia.
Qed.

Lemma omap_insert_same {A B} (f : A -> option B) (l : list A) i x y :
  l !! i = Some x -> f x = f y -> omap f (<[i:=y]> l) = omap f l.
Proof.
  revert i. induction l as [|a l IH]; intros [|i] Hi Hf; simplify_eq/=.
  - by rewrite Hf.
  - by rewrite (IH i).
Qed.

Lemma omap_insert_new {A B} (f : A -> option B) (l : list A) i x y b :
  l !! i = Some x -> f x = None -> f y = Some b ->
  omap f (<[i:=y]> l) ≡ₚ b :: omap f l.
Proof.
  revert i. induction l as [|a l IH]; intros [|i] Hi Hx Hy; simplify_eq/=.
  - destruct (f x), (f y); by simplify_eq.
  - specialize (IH i Hi Hx Hy). destruct (f a); [|done].
    rewrite IH. apply Permutation_swap.
Qed.

Lemma omap_length {A B} (f : A -> option B) (l : list A) :
  (length (omap f l) <= length l)%nat.
Proof. induction l as [|a l IH]; csimpl; [lia|]. destruct (f a); csimpl; lia. Qed.

Lemma omap_length_lt {A B} (f : A -> option B) (l : list A) i x :
  l !! i = Some x -> f x = None -> (length (omap f l) < length l)%nat.
Proof.
  revert i. induction l as [|a l IH]; intros [|i] Hi Hx; simpl in Hi; simplify_eq; csimpl.
  - rewrite Hx. pose proof (omap_length f l). lia.
  - specialize (IH i Hi Hx). destruct (f a); csimpl; lia.
Qed.

Lemma fmap_gNpi_insert (l : list (goroutine Provider)) (i : nat) g pc :
  l !! i = Some g ->
  gNpi <$> <[i := {| gNpi := gNpi g; gPc := pc |}]> l = gNpi <$> l.
Proof.
  intros Hi. rewrite list_fmap_insert. simpl.
  apply list_insert_id. by rewrite list_lookup_fmap, Hi.
Qed.

Lemma Inv_init npis : Inv npis (batchInit (Provider := Provider) npis).
Proof.
  split; simpl; try done.
  - unfold semaphoreCap. lia.
  - unfold successes. simpl. intros k p Hin. by apply elem_of_nil in Hin.
Qed.

(** The effect of one goroutine's move on the invariant.  The move
    may send one error or store one provider. *)
Lemma Inv_moveGo npis s i g pc sem wg results errChan :
  Inv npis s ->
  bGo s !! i = Some g ->
  running g = true ->
  let g' := {| gNpi := gNpi g; gPc := pc |} in
  (sem + Nat.b2n (holdsSlot g) = bSem s + Nat.b2n (holdsSlot g'))%nat ->
  (sem <= semaphoreCap)%nat ->
  (wg + Nat.b2n (running g) = bWg s + Nat.b2n (running g'))%nat ->
  (sentBy g = sentBy g' /\ errChan = bErrChan s \/
   sentBy g = None /\ exists e, sentBy g' = Some e /\ errChan = bErrChan s ++ [e]) ->
  (storedBy g = storedBy g' /\ results = bResults s \/
   storedBy g = None /\ exists p, storedBy g' = Some (gNpi g, p) /\
                                results = <[gNpi g := p]> (bResults s)) ->
  Inv npis (moveGo i g pc sem wg results errChan s).
Proof.
  intros HI Hi Hrun g' Hsem Hcap Hwg Herr Hres.
  destruct HI as [Hkeys Isem Icap Iwg Ibuf Ierr Iin Idom Iret].
  split; simpl.
  - unfold restOf. simpl. by rewrite fmap_gNpi_insert.
  - pose proof (countGo_insert holdsSlot (bGo s) i g g' Hi). fold g'. lia.
  - done.
  - pose proof (countGo_insert running (bGo s) i g g' Hi). fold g'. lia.
  - done.
  - unfold failures. simpl. fold g'.
    destruct Herr as [[Hsame ->]|(Hnone & e & Hsome & ->)].
    + by rewrite (omap_insert_same sentBy (bGo s) i g g').
    + rewrite (omap_insert_new sentBy (bGo s) i g g' e) by done.
      rewrite <- Ierr. by rewrite Permutation_app_comm.
  - unfold successes. simpl. fold g'. intros k p.
    destruct Hres as [[Hsame ->]|(Hnone & p' & Hsome & ->)].
    + rewrite (omap_insert_same storedBy (bGo s) i g g') by done. apply Iin.
    + rewrite (omap_insert_new storedBy (bGo s) i g g' (gNpi g, p')) by done.
      destruct (decide (gNpi g = k)) as [<-|Hne].
      * rewrite lookup_insert_eq. intros [= <-]. apply list_elem_of_here.
      * rewrite lookup_insert_ne by done. intros Hk. apply list_elem_of_further. by apply Iin.
  - unfold successes. simpl. fold g'. intros k p.
    destruct Hres as [[Hsame ->]|(Hnone & p' & Hsome & ->)].
    + rewrite (omap_insert_same storedBy (bGo s) i g g') by done. apply Idom.
    + rewrite (omap_insert_new storedBy (bGo s) i g g' (gNpi g, p')) by done.
      intros Hin. apply elem_of_cons in Hin as [[= -> ->]|Hin].
      * rewrite lookup_insert_eq. by eexists.
      * destruct (decide (gNpi g = k)) as [<-|Hne].
        { rewrite lookup_insert_eq. by eexists. }
        rewrite lookup_insert_ne by done. by eapply Idom.
  - intros res err Hmain. destruct (Iret res err Hmain) as (Hz & _ & _).
    pose proof (countGo_lookup running (bGo s) i g Hi Hrun). lia.
Qed.

Lemma Inv_step npis a s s' : Inv npis s -> step a s = Some s' -> Inv npis s'.
Proof.
  intros HI Hstep. destruct a as [|i|i r]; simpl in Hstep.
  - (* the caller *)
    unfold stepMain in Hstep.
    destruct HI as [Hkeys Isem Icap Iwg Ibuf Ierr Iin Idom Iret].
    unfold restOf in Hkeys.
    destruct (bMain s) as [[|npi rest]| |res err] eqn:Hmain; try done.
    + injection Hstep as <-. split; simpl; done.
    + injection Hstep as <-. split; simpl; try done.
      * unfold restOf. simpl. by rewrite fmap_app, <- app_assoc.
      * rewrite countGo_app. simpl. lia.
      * rewrite countGo_app. simpl. lia.
      * unfold failures. simpl. by rewrite omap_app, app_nil_r.
      * unfold successes. simpl. by rewrite omap_app, app_nil_r.
      * unfold successes. simpl. by rewrite omap_app, app_nil_r.
    + case_bool_decide as Hz; [|done]. injection Hstep as <-.
      split; simpl; try done.
      intros res err [= <- <-]. done.
  - (* a goroutine *)
    unfold stepGo in Hstep.
    destruct (bGo s !! i) as [g|] eqn:Hi; [|done].
    assert (Hslot : holdsSlot g = true -> (0 < bSem s)%nat).
    { intros Hh. rewrite (inv_sem _ _ HI). by eapply countGo_lookup. }
    pose proof (inv_sem_cap _ _ HI) as Hcap.
    unfold holdsSlot, running, exited in *.
    destruct (gPc g) as [| |err|p|r|r|r] eqn:Hpc; try done;
      try (case_bool_decide as Hguard; [|done]); simplify_eq;
      (apply Inv_moveGo;
       [done|done|unfold running, exited; by rewrite Hpc|
        unfold holdsSlot; rewrite Hpc; simpl; try specialize (Hslot eq_refl); lia|
        simpl; unfold semaphoreCap in *; lia|
        unfold running, exited; rewrite Hpc; simpl; lia| |]);
      unfold sentBy, storedBy; rewrite Hpc; simpl; eauto;
      try (destruct r; eauto).
  - (* the return of a fetch *)
    unfold stepFetched in Hstep.
    destruct (bGo s !! i) as [g|] eqn:Hi; [|done].
    destruct (gPc g) as [| |err|p|r'|r'|r'] eqn:Hpc; try done. simplify_eq.
    apply Inv_moveGo; try done.
    + unfold running, exited. by rewrite Hpc.
    + unfold holdsSlot. rewrite Hpc. simpl. destruct r; simpl; lia.
    + apply (inv_sem_cap _ _ HI).
    + unfold running, exited. rewrite Hpc. simpl. destruct r; simpl; lia.
    + left. unfold sentBy. rewrite Hpc. simpl. by destruct r.
    + left. unfold storedBy. rewrite Hpc. simpl. by destruct r.
Qed.

Lemma Inv_run npis acts : forall s s', Inv npis s -> run acts s = Some s' -> Inv npis s'.
Proof.
  induction acts as [|a acts IH]; intros s s' HI Hrun; simpl in Hrun.
  - by simplify_eq.
  - destruct (step a s) as [s1|] eqn:Hstep; [|done].
    eapply IH; [|done]. by eapply Inv_step.
Qed.

Lemma reachable_Inv npis s : reachable npis s -> Inv npis s.
Proof. intros [acts Hrun]. eapply Inv_run; [apply Inv_init|done]. Qed.

Lemma countGo_le (f f' : goroutine Provider -> bool) l :
  (forall g, f g = true -> f' g = true) -> (countGo f l <= countGo f' l)%nat.
Proof.
  intros Himp. induction l as [|g l IH]; simpl; [lia|].
  destruct (f g) eqn:Hf; [rewrite (Himp g Hf)|]; simpl; lia.
Qed.

Lemma reachable_stateAfter npis (acts : list (Action Provider)) :
  follows npis acts = true -> reachable npis (stateAfter npis acts).
Proof.
  unfold follows, stateAfter. intros Hf. exists acts.
  by destruct (run acts (batchInit npis)).
Qed.


(** C9: in every state a batch call reaches, whatever the number of
    keys, at most five fetches are in flight: the goroutines between
    their send on the semaphore and their receive from it are as many
    as the semaphore holds, and it holds at most five; a goroutine at
    its send on the semaphore can go on exactly when fewer than five
    hold a slot. *)
Theorem batch_concurrency_bound npis s :
  reachable npis s ->
  (inFlight s <= 5)%nat /\
  countGo holdsSlot (bGo s) = bSem s /\
  (bSem s <= 5)%nat /\
  (forall i g, bGo s !! i = Some g -> gPc g = GAcquire ->
     (is_Some (step (ActGo i) s) <-> (countGo holdsSlot (bGo s) < 5)%nat)).
Proof.
  intros Hreach. pose proof (reachable_Inv _ _ Hreach) as HI.
  pose proof (inv_sem _ _ HI) as Hsem. pose proof (inv_sem_cap _ _ HI) as Hcap.
  unfold semaphoreCap in Hcap.
  split; [|split; [done|split; [done|]]].
  - unfold inFlight.
    pose proof (countGo_le fetching holdsSlot (bGo s)) as Hle.
    unfold fetching, holdsSlot in Hle.
    assert (countGo fetching (bGo s) <= countGo holdsSlot (bGo s))%nat; [|lia].
    apply Hle. intros g. by destruct (gPc g).
  - intros i g Hi Hpc. simpl. unfold stepGo. rewrite Hi, Hpc, <- Hsem.
    unfold semaphoreCap. case_bool_decide; split; try done.
Qed.






(** When the caller has returned, every key has a goroutine and every
    goroutine has returned. *)
Lemma returned_state npis s res err :
  reachable npis s -> bMain s = MReturned res err ->
  gNpi <$> bGo s = npis /\
  Forall (fun g => exited g = true) (bGo s) /\
  res = bResults s /\ err = batchError (bErrChan s).
Proof.
  intros Hreach Hmain. pose proof (reachable_Inv _ _ Hreach) as HI.
  destruct (inv_ret _ _ HI res err Hmain) as (Hwg & -> & ->).
  pose proof (inv_keys _ _ HI) as Hkeys. unfold restOf in Hkeys.
  rewrite Hmain, app_nil_r in Hkeys.
  repeat split; try done.
  rewrite (inv_wg _ _ HI) in Hwg. apply countGo_zero in Hwg.
  eapply Forall_impl; [exact Hwg|]. intros g. unfold running. by destruct (exited g).
Qed.








End BatchProperties.

(** ** The properties on sample inputs *)

Example threeKeys_returns :
  GetProvidersByNPIs threeKeys threeKeysSchedule
  = Some (Some threeKeysResults,
          Some (errorString
                  ("batch fetch completed with 1 errors: " +:+
                   "failed to fetch NPI 9999999999: " +:+
                   "no provider found with NPI 9999999999"))).
Proof. vm_compute. reflexivity. Qed.

Example sevenKeys_inFlight :
  inFlight (stateAfter sevenKeys sevenKeysSchedule) = 5%nat /\
  step (ActGo 2) (stateAfter sevenKeys sevenKeysSchedule) = None.
Proof. vm_compute. split; reflexivity. Qed.

Example cache_hit_skips_transport :
  attempts (wEvents (snd (runOps (rt := sampleRuntime)
                            [OpGet (serverAlways 200 "p") 5 "1234567890";
                             OpGet (serverAlways 200 "p") 5 "1234567890";
                             OpGet (serverAlways 200 "p") 5 "0987654321"]
                            (freshWorld [WithCache (10 * Second)]))))
  = 2%nat.
Proof. vm_compute. reflexivity. Qed.

Example retry_then_success :
  let env := {| httpDo := fun n _ => if n <? 2 then Response 503 "" else Response 200 "p";
                ctxDone := fun _ => None; nowLookup := 0; nowStore := 0 |} in
  doRequestWithRetry (rt := sampleRuntime) env 10 "u" emptyResponse (freshWorld [])
  = (Some ({| ResultCount := 1; Results := ["p"] |}, None),
     addEvents (freshWorld [])
       [EvAttempt 0 "u"; EvWait 1 (100 * Millisecond); EvAttempt 1 "u";
        EvWait 2 (200 * Millisecond); EvAttempt 2 "u"]).
Proof. vm_compute. reflexivity. Qed.

Lemma doRequestWithRetry_exhausted_witness :
  (exists result' w' lastErr r,
     doRequestWithRetry (rt := sampleRuntime) (serverAlways 503 "busy") 4 "u" emptyResponse
       (freshWorld [WithRetry retryTwice])
     = (Some (result', Some (wrapError "max retries exceeded: " lastErr)), w') /\
     snd (doRequest (rt := sampleRuntime) (httpDo (serverAlways 503 "busy") 2) "u" r)
     = Some lastErr /\
     wClient w' = wClient (freshWorld [WithRetry retryTwice]) /\
     attempts (wEvents w') = (0 + 3)%nat /\
     waits (wEvents w') = (0 + 2)%nat) /\
  (exists r,
     doRequestWithRetry (rt := sampleRuntime) (serverAlways 404 "gone") 4 "u" emptyResponse
       (freshWorld [WithRetry noRetry])
     = (Some r, addEvents (freshWorld [WithRetry noRetry]) [EvAttempt 0 "u"])).
Proof.
  split.
  - apply (proj1 (doRequestWithRetry_exhausted (rt := sampleRuntime)
                    (serverAlways 503 "busy") "u" emptyResponse
                    (freshWorld [WithRetry retryTwice]) 4) 2).
    + reflexivity.
    + unfold maxInt. lia.
    + simpl. lia.
    + intros k _ result. eexists. split; reflexivity.
    + intros k _. reflexivity.
  - apply (proj2 (doRequestWithRetry_exhausted (rt := sampleRuntime)
                    (serverAlways 404 "gone") "u" emptyResponse
                    (freshWorld [WithRetry noRetry]) 4)).
    + reflexivity.
    + lia.
Defined.

Lemma doRequestWithRetry_fatal_witness :
  exists result' evs,
    doRequestWithRetry (rt := sampleRuntime) (serverAlways 404 "gone") 4 "u" emptyResponse
      (freshWorld [WithRetry retryTwice])
    = (Some (result', Some (APIError 404 "API returned status 404: gone")),
       addEvents (freshWorld [WithRetry retryTwice]) (evs ++ [EvAttempt 0 "u"])) /\
    shouldRetry (APIError 404 "API returned status 404: gone") = false /\
    attempts evs = 0%nat /\
    (0 = 0 -> evs = []).
Proof.
  apply (proj2 (doRequestWithRetry_fatal (rt := sampleRuntime)
                  (serverAlways 404 "gone") "u" emptyResponse
                  (freshWorld [WithRetry retryTwice]) 4) 0 404 "gone").
  - simpl. lia.
  - simpl. unfold maxInt. lia.
  - intros k Hk. lia.
  - intros k _. reflexivity.
  - reflexivity.
  - reflexivity.
  - simpl. lia.
Defined.

Lemma doRequestWithRetry_cancelled_witness :
  exists result' evs,
    doRequestWithRetry (rt := sampleRuntime) (cancelledBefore 1 503 "busy") 4 "u" emptyResponse
      (freshWorld [])
    = (Some (result', Some (wrapError "request cancelled: " (errorString "context canceled"))),
       addEvents (freshWorld []) (evs ++ [EvWait 1 (100 * Millisecond)])) /\
    attempts evs = 1%nat.
Proof.
  destruct (doRequestWithRetry_cancelled (rt := sampleRuntime)
              (cancelledBefore 1 503 "busy") "u" emptyResponse (freshWorld []) 4 1
              (errorString "context canceled"))
    as (result' & evs & Hrun & Hatt & _).
  - simpl. unfold DefaultMaxRetries. lia.
  - simpl. unfold DefaultMaxRetries, maxInt. lia.
  - intros k _ result. eexists. split; reflexivity.
  - intros k Hk. lia.
  - reflexivity.
  - simpl. lia.
  - exists result', evs. split; [exact Hrun|exact Hatt].
Defined.

Lemma doRequest_status_boundary_witness :
  doRequest (rt := sampleRuntime) (fun _ => Response 500 "oops") "u" emptyResponse
  = (emptyResponse, Some (APIError 500 "API returned status 500: oops")) /\
  doRequest (rt := sampleRuntime) (fun _ => Response 200 "bad") "u" emptyResponse
  = (emptyResponse,
     Some (wrapError "failed to decode response: "
             (errorString "unexpected end of JSON input"))).
Proof.
  split.
  - apply (proj1 (proj2 (doRequest_status_boundary (rt := sampleRuntime) "u" 500 "oops"
                           emptyResponse))).
    lia.
  - apply (proj2 (proj2 (doRequest_status_boundary (rt := sampleRuntime) "u" 200 "bad"
                           emptyResponse)));
      reflexivity.
Defined.

(** C8 as the specification states it fails at status 204: the status
    is in the 2xx class and [doRequest] returns an [*APIError]. *)
Lemma doRequest_204_is_error :
  (200 <=? 204) && (204 <? 300) = true /\
  snd (doRequest (rt := sampleRuntime) (fun _ => Response 204 "ok") "u" emptyResponse)
  = Some (APIError 204 "API returned status 204: ok").
Proof. split; reflexivity. Qed.

Lemma setCached_getCached_witness :
  fst (getCached (4 * Minute) "1234567890"
         (snd (setCached 0 "1234567890" (Some "p") (freshWorld [WithCache Minute]))))
  = Some "p" /\
  fst (getCached (6 * Minute) "1234567890"
         (snd (setCached 0 "1234567890" (Some "p") (freshWorld [WithCache Minute]))))
  = None.
Proof.
  split.
  - apply (proj1 (proj2 (proj2 (setCached_getCached (freshWorld [WithCache Minute])
                                  "1234567890" "p" 0 (4 * Minute))))).
    vm_compute. discriminate.
  - apply (proj1 (proj2 (proj2 (proj2 (setCached_getCached (freshWorld [WithCache Minute])
                                         "1234567890" "p" 0 (6 * Minute)))))).
    vm_compute. reflexivity.
Defined.

Lemma cache_disabled_untouched_witness :
  exists evs,
    snd (runOps (rt := sampleRuntime)
           [OpGet (serverAlways 200 "p") 5 "1234567890";
            OpGet (serverAlways 200 "p") 5 "1234567890";
            OpSearch (serverAlways 503 "busy") 5 (searchWithLimit 20)]
           (freshWorld []))
    = addEvents (freshWorld []) evs /\
    Forall (fun ev => isCacheAccess ev = false) evs.
Proof.
  apply (proj1 (cache_disabled_untouched (rt := sampleRuntime) (freshWorld []) eq_refl)).
Defined.

Lemma batch_concurrency_bound_witness :
  (inFlight (stateAfter sevenKeys sevenKeysSchedule) <= 5)%nat.
Proof.
  apply (proj1 (batch_concurrency_bound sevenKeys (stateAfter sevenKeys sevenKeysSchedule)
                  (reachable_stateAfter sevenKeys sevenKeysSchedule
                     ltac:(vm_compute; reflexivity)))).
Defined.


(** * Further properties of the code *)

(** ** The retry engine, whatever the transport does *)

Section RetryEngine.

Context {Provider : Type} {rt : Runtime Provider}.
Variables (env : Env) (url : string).

Lemma backoffDelay_le cfg attempt : backoffDelay cfg attempt <= MaxDelay cfg.
Proof. rewrite backoffDelay_min. lia. Qed.

Lemma retryEvent_iteration cfg attempt :
  0 <= attempt <= MaxRetries cfg ->
  Forall (retryEvent cfg url) (waitEvents cfg attempt ++ [EvAttempt attempt url]).
Proof.
  intros Hle. unfold waitEvents. destruct (attempt >? 0) eqn:Hpos; simpl.
  - apply Forall_cons_2; [|apply Forall_cons_2; [|apply Forall_nil_2]]; simpl.
    + split; [lia|]. split; [done|]. apply backoffDelay_le.
    + split; [done|lia].
  - apply Forall_cons_2; [|apply Forall_nil_2]. simpl. split; [done|lia].
Qed.

(** X1: when the first [n] attempts fail retryably, no wait is
    cancelled and attempt [n] succeeds, the retry engine returns nil
    with what that attempt decoded, after exactly [n + 1] attempts and
    [n] waits. *)
Theorem doRequestWithRetry_succeeds_after result (w : World Provider) fuel n :
  0 <= n <= MaxRetries (retry (wClient w)) ->
  MaxRetries (retry (wClient w)) <= maxInt ->
  (forall k, 0 <= k < n -> failsRetryably (httpDo env k) url) ->
  (forall k, 0 < k <= n -> ctxDone env k = None) ->
  (forall r, snd (doRequest (httpDo env n) url r) = None) ->
  (Z.to_nat n < fuel)%nat ->
  exists r evs,
    doRequestWithRetry env fuel url result w
    = (Some (fst (doRequest (httpDo env n) url r), None), addEvents w evs) /\
    attempts evs = Z.to_nat (n + 1) /\
    waits evs = Z.to_nat n.
Proof.
  intros Hn Hint Hfail Hwait Hok Hfuel.
  destruct (retryLoop_advance env url (Z.to_nat n) 0 None result w (fuel - Z.to_nat n))
    as (lastErr' & result' & evs & Hrun & Hatt & Hwts & _ & _ & _);
    try lia.
  { intros k Hk. apply Hfail. lia. }
  { intros k Hk Hk0. apply Hwait. lia. }
  replace (Z.to_nat n + (fuel - Z.to_nat n))%nat with fuel in Hrun by lia.
  destruct (fuel - Z.to_nat n)%nat as [|fuel'] eqn:Hf; [lia|].
  replace (0 + Z.of_nat (Z.to_nat n)) with n in Hrun by lia.
  rewrite retryLoop_attempt in Hrun by (simpl; try lia; intros; apply Hwait; lia).
  specialize (Hok result').
  destruct (doRequest (httpDo env n) url result') as [res o] eqn:Hdo.
  simpl in Hok. subst o. rewrite addEvents_app in Hrun.
  exists result', (evs ++ waitEvents (retry (wClient (addEvents w evs))) n ++ [EvAttempt n url]).
  unfold doRequestWithRetry. rewrite Hrun, Hdo. split; [done|].
  rewrite !attempts_app, !waits_app, attempts_waitEvents, waits_waitEvents, Hatt, Hwts.
  change (attempts [EvAttempt n url]) with 1%nat.
  change (waits [EvAttempt n url]) with 0%nat. simpl.
  destruct (n >? 0) eqn:Hpos; lia.
Qed.

(** The loop from any attempt number on: its events and their
    number. *)
Lemma retryLoop_bounded fuel :
  forall attempt lastErr result (w : World Provider),
  0 <= attempt ->
  MaxRetries (retry (wClient w)) < maxInt ->
  exists evs,
    snd (retryLoop env url fuel attempt lastErr result w) = addEvents w evs /\
    Forall (retryEvent (retry (wClient w)) url) evs /\
    (attempts evs <= Z.to_nat (MaxRetries (retry (wClient w)) + 1 - attempt))%nat /\
    (waits evs <= Z.to_nat (MaxRetries (retry (wClient w)) + 1 - Z.max attempt 1))%nat.
Proof.
  induction fuel as [|fuel IH]; intros attempt lastErr result w Hpos Hint.
  { exists []. rewrite addEvents_nil.
    split; [done|]. split; [constructor|].
    change (attempts []) with 0%nat. change (waits []) with 0%nat. lia. }
  destruct (decide (attempt <= MaxRetries (retry (wClient w)))) as [Hle|Hgt].
  2:{ rewrite retryLoop_exit by lia. exists []. rewrite addEvents_nil.
      split; [done|]. split; [constructor|].
      change (attempts []) with 0%nat. change (waits []) with 0%nat. lia. }
  pose proof (retryEvent_iteration (retry (wClient w)) attempt ltac:(lia)) as Hiter.
  assert (Hcont :
    exists evs,
      snd (match doRequest (httpDo env attempt) url result with
           | (result', None) =>
               (Some (result', None),
                addEvents w (waitEvents (retry (wClient w)) attempt ++ [EvAttempt attempt url]))
           | (result', Some err) =>
               if negb (shouldRetry err)
               then (Some (result', Some err),
                     addEvents w (waitEvents (retry (wClient w)) attempt
                                  ++ [EvAttempt attempt url]))
               else retryLoop env url fuel (wrapInt (attempt + 1)) (Some err) result'
                      (addEvents w (waitEvents (retry (wClient w)) attempt
                                    ++ [EvAttempt attempt url]))
           end)
      = addEvents w evs /\
      Forall (retryEvent (retry (wClient w)) url) evs /\
      (attempts evs <= Z.to_nat (MaxRetries (retry (wClient w)) + 1 - attempt))%nat /\
      (waits evs <= Z.to_nat (MaxRetries (retry (wClient w)) + 1 - Z.max attempt 1))%nat).
  { assert (Hone :
      (attempts (waitEvents (retry (wClient w)) attempt ++ [EvAttempt attempt url]) = 1 /\
       waits (waitEvents (retry (wClient w)) attempt ++ [EvAttempt attempt url])
       = if attempt >? 0 then 1 else 0)%nat).
    { rewrite attempts_app, waits_app, attempts_waitEvents, waits_waitEvents.
      change (attempts [EvAttempt attempt url]) with 1%nat.
      change (waits [EvAttempt attempt url]) with 0%nat.
      destruct (attempt >? 0); split; lia. }
    destruct Hone as [Ha Hw].
    assert (Hhere :
      (attempts (waitEvents (retry (wClient w)) attempt ++ [EvAttempt attempt url])
       <= Z.to_nat (MaxRetries (retry (wClient w)) + 1 - attempt) /\
       waits (waitEvents (retry (wClient w)) attempt ++ [EvAttempt attempt url])
       <= Z.to_nat (MaxRetries (retry (wClient w)) + 1 - Z.max attempt 1))%nat).
    { rewrite Ha, Hw. destruct (attempt >? 0) eqn:E; lia. }
    destruct (doRequest _ _ _) as [result' [err|]]; [|by eexists].
    destruct (negb (shouldRetry err)); [by eexists|].
    rewrite wrapInt_id by (unfold minInt, maxInt in *; lia).
    destruct (IH (attempt + 1) (Some err) result'
                (addEvents w (waitEvents (retry (wClient w)) attempt
                              ++ [EvAttempt attempt url])))
      as (evs & -> & Hall & Hatt & Hwts); [lia|done|].
    simpl wClient in *. rewrite addEvents_app. eexists. split; [done|].
    split; [by apply Forall_app|].
    rewrite !attempts_app, !waits_app, attempts_waitEvents, waits_waitEvents.
    change (attempts [EvAttempt attempt url]) with 1%nat.
    change (waits [EvAttempt attempt url]) with 0%nat.
    destruct (attempt >? 0) eqn:E; lia. }
  destruct (ctxDone env attempt) as [ctxErr|] eqn:Hdone;
    [destruct (decide (0 < attempt)) as [Hp|Hz]|].
  - rewrite (retryLoop_cancel _ _ _ _ _ _ _ ctxErr) by done.
    eexists. split; [done|]. split.
    + apply Forall_cons_2; [|apply Forall_nil_2]. simpl.
      split; [lia|]. split; [done|]. apply backoffDelay_le.
    + change (attempts [EvWait attempt (backoffDelay (retry (wClient w)) attempt)]) with 0%nat.
      change (waits [EvWait attempt (backoffDelay (retry (wClient w)) attempt)]) with 1%nat.
      lia.
  - rewrite retryLoop_attempt by (done || lia). exact Hcont.
  - rewrite retryLoop_attempt by done. exact Hcont.
Qed.

(** X2: whatever the transport and the context do, the retry engine
    leaves the client as it was, makes at most [MaxRetries + 1]
    attempts (none when [MaxRetries] is negative) and at most
    [MaxRetries] waits, requests the same URL in every attempt, and
    never waits longer than [MaxDelay]. *)
Theorem doRequestWithRetry_bounded fuel result (w : World Provider) :
  MaxRetries (retry (wClient w)) < maxInt ->
  exists evs,
    snd (doRequestWithRetry env fuel url result w) = addEvents w evs /\
    Forall (retryEvent (retry (wClient w)) url) evs /\
    (attempts evs <= Z.to_nat (MaxRetries (retry (wClient w)) + 1))%nat /\
    (waits evs <= Z.to_nat (MaxRetries (retry (wClient w))))%nat.
Proof.
  intros Hint. unfold doRequestWithRetry.
  destruct (retryLoop_bounded fuel 0 None result w) as (evs & Hsnd & Hall & Hatt & Hwts);
    [lia|done|].
  exists evs. repeat split; try done; lia.
Qed.

(** An error of [doRequest] that [shouldRetry] rejects is the
    [*APIError] of a response whose status is not 200, below 500 and
    not 429. *)
Lemma doRequest_fatal_inv (do : string -> HTTPOutcome) (result : APIResponse Provider) err :
  snd (doRequest do url result) = Some err ->
  shouldRetry err = false ->
  exists status body,
    do url = Response status body /\
    status <> 200 /\ status < 500 /\ status <> 429 /\
    err = APIError status ("API returned status " +:+ Itoa status +:+ ": " +:+ body).
Proof.
  unfold doRequest, StatusOK. intros Herr Hno.
  destruct (do url) as [e|e|status body]; simpl in Herr.
  - injection Herr as <-. done.
  - injection Herr as <-. done.
  - destruct (status =? 200) eqn:Hs; simpl in Herr.
    + destruct (jsonDecode body result) as [r' [e|]]; simpl in Herr; [|done].
      injection Herr as <-. done.
    + injection Herr as <-. simpl in Hno. apply orb_false_iff in Hno as [H5 H4].
      exists status, body. repeat split; try done; lia.
Qed.

(** X3: an error of [doRequest] is refused by [shouldRetry] exactly
    when it comes from a response whose status is not 200, below 500
    and not 429; a request that could not be built, a transport error
    and a body that does not decode are all retried. *)
Theorem doRequest_error_retryable (do : string -> HTTPOutcome)
    (result : APIResponse Provider) err :
  snd (doRequest do url result) = Some err ->
  (shouldRetry err = false <->
   exists status body,
     do url = Response status body /\ status <> 200 /\ status < 500 /\ status <> 429).
Proof.
  intros Herr. split.
  - intros Hno. destruct (doRequest_fatal_inv do result err Herr Hno)
      as (status & body & ? & ? & ? & ? & _).
    by exists status, body.
  - intros (status & body & Hdo & H2 & H5 & H4).
    unfold doRequest, StatusOK in Herr. rewrite Hdo in Herr.
    replace (status =? 200) with false in Herr by lia. simpl in Herr.
    injection Herr as <-. simpl. apply orb_false_iff. lia.
Qed.

Lemma retryLoop_error_kinds fuel :
  forall attempt lastErr result (w : World Provider) res e,
  (forall last, lastErr = Some last -> shouldRetry last = true /\ attemptError env url last) ->
  fst (retryLoop env url fuel attempt lastErr result w) = Some (res, Some e) ->
  cancelledError env e \/ exhaustedError env url e \/ fatalError env url e.
Proof.
  induction fuel as [|fuel IH]; intros attempt lastErr result w res e Hlast Hret; [done|].
  destruct (decide (attempt <= MaxRetries (retry (wClient w)))) as [Hle|Hgt].
  2:{ rewrite retryLoop_exit in Hret by lia. simpl in Hret. injection Hret as <- <-.
      right. left. by exists lastErr. }
  assert (Hcont :
    fst (match doRequest (httpDo env attempt) url result with
         | (result', None) =>
             (Some (result', None),
              addEvents w (waitEvents (retry (wClient w)) attempt ++ [EvAttempt attempt url]))
         | (result', Some err) =>
             if negb (shouldRetry err)
             then (Some (result', Some err),
                   addEvents w (waitEvents (retry (wClient w)) attempt
                                ++ [EvAttempt attempt url]))
             else retryLoop env url fuel (wrapInt (attempt + 1)) (Some err) result'
                    (addEvents w (waitEvents (retry (wClient w)) attempt
                                  ++ [EvAttempt attempt url]))
         end) = Some (res, Some e) ->
    cancelledError env e \/ exhaustedError env url e \/ fatalError env url e).
  { destruct (doRequest (httpDo env attempt) url result) as [result' [err|]] eqn:Hdo;
      [|done].
    assert (Hatt : attemptError env url err) by (exists attempt, result; by rewrite Hdo).
    destruct (shouldRetry err) eqn:Hs; simpl.
    - apply IH. intros last [= <-]. done.
    - intros [= <- <-]. right. right. split; [done|].
      destruct (doRequest_fatal_inv (httpDo env attempt) result err) as
        (status & body & _ & ? & ? & ? & ->); [by rewrite Hdo|done|].
      by eexists _, _. }
  destruct (ctxDone env attempt) as [ctxErr|] eqn:Hdone;
    [destruct (decide (0 < attempt)) as [Hp|Hz]|].
  - rewrite (retryLoop_cancel _ _ _ _ _ _ _ ctxErr) in Hret by done.
    simpl in Hret. injection Hret as <- <-. left. by exists attempt, ctxErr.
  - rewrite retryLoop_attempt in Hret by (done || lia). by apply Hcont.
  - rewrite retryLoop_attempt in Hret by done. by apply Hcont.
Qed.

(** X4: an error returned by the retry engine is of one of three
    kinds: the cancellation of a wait (wrapping [ctx.Err()]), the
    exhaustion of the retries (wrapping the last, retryable, failure;
    nothing when no attempt was made), or the [*APIError] of a
    response with a status that is not 200, below 500 and not 429,
    returned as [doRequest] made it. *)
Theorem doRequestWithRetry_error_kinds fuel result (w : World Provider) res e :
  fst (doRequestWithRetry env fuel url result w) = Some (res, Some e) ->
  cancelledError env e \/ exhaustedError env url e \/ fatalError env url e.
Proof. unfold doRequestWithRetry. apply retryLoop_error_kinds. intros last [=]. Qed.

(** X5: with a negative [MaxRetries] the retry engine makes no attempt
    at all: it returns at once the exhaustion error, which then wraps
    nothing, and leaves [result] and the client as they were. *)
Theorem doRequestWithRetry_negative_budget fuel result (w : World Provider) :
  MaxRetries (retry (wClient w)) < 0 ->
  (0 < fuel)%nat ->
  doRequestWithRetry env fuel url result w
  = (Some (result, Some (errorString "max retries exceeded: %!w(<nil>)")), w) /\
  Unwrap (errorString "max retries exceeded: %!w(<nil>)") = None.
Proof.
  intros Hneg Hfuel. unfold doRequestWithRetry. destruct fuel as [|fuel]; [lia|].
  rewrite retryLoop_exit by lia. done.
Qed.

End RetryEngine.

(** ** The single fetch and its cache *)

Section SingleFetch.

Context {Provider : Type} {rt : Runtime Provider}.

Lemma SearchProviders_unfold env fuel opts (w : World Provider) :
  SearchProviders env fuel opts w
  = (match fst (doRequestWithRetry env fuel (apiURL (wClient w) opts)
                  {| ResultCount := 0; Results := [] |} w) with
     | None => None
     | Some (_, Some err) => Some ([], Some (wrapError "search providers failed: " err))
     | Some (response, None) => Some (Results response, None)
     end,
     snd (doRequestWithRetry env fuel (apiURL (wClient w) opts)
            {| ResultCount := 0; Results := [] |} w)).
Proof.
  unfold SearchProviders, bind, getClient, ret, apiURL.
  destruct (doRequestWithRetry _ _ _ _ _) as [[[response [err|]]|] w']; done.
Qed.

Lemma GetProviderByNPI_hit env fuel npi (w : World Provider) p :
  npi <> "" ->
  cached (wClient w) (nowLookup env) npi = Some p ->
  GetProviderByNPI env fuel npi w
  = (Some (Some p, None), addEvents w (lookupEvents true npi)).
Proof.
  intros Hnpi Hhit. unfold cached in Hhit. unfold GetProviderByNPI.
  rewrite bool_decide_eq_false_2 by done.
  destruct (enabled (cache (wClient w))) eqn:Hen; [|done].
  unfold bind at 1. unfold getClient at 1. unfold bind at 1. unfold emit at 1.
  rewrite Hen. unfold bind at 1. rewrite getCached_run.
  cbn [wClient]. rewrite Hhit. unfold ret, addEvents, lookupEvents. simpl.
  by rewrite <- app_assoc.
Qed.

Lemma GetProviderByNPI_miss env fuel npi (w : World Provider) :
  npi <> "" ->
  cached (wClient w) (nowLookup env) npi = None ->
  GetProviderByNPI env fuel npi w
  = match SearchProviders env fuel (byNumber npi)
            (addEvents w (lookupEvents (enabled (cache (wClient w))) npi)) with
    | (None, w1) => (None, w1)
    | (Some (_, Some err), w1) =>
        (Some (None,
               Some (wrapError ("failed to get provider by NPI " +:+ npi +:+ ": ") err)), w1)
    | (Some ([], None), w1) =>
        (Some (None, Some (errorString ("no provider found with NPI " +:+ npi))), w1)
    | (Some (p :: _, None), w1) =>
        (Some (Some p, None), afterStore (nowStore env) npi p w1)
    end.
Proof.
  intros Hnpi Hmiss. unfold cached in Hmiss. unfold GetProviderByNPI.
  rewrite bool_decide_eq_false_2 by done.
  unfold bind at 1. unfold getClient at 1. unfold bind at 1. unfold emit at 1.
  assert (Hlookup :
    (if enabled (cache (wClient w)) then getCached (nowLookup env) npi else ret None)
      {| wClient := wClient w;
         wEvents := wEvents w ++ [EvCacheEnabled (enabled (cache (wClient w)))] |}
    = (None, addEvents w (lookupEvents (enabled (cache (wClient w))) npi))).
  { destruct (enabled (cache (wClient w))) eqn:Hen.
    - rewrite getCached_run. cbn [wClient]. rewrite Hmiss.
      unfold addEvents, lookupEvents. simpl. by rewrite <- app_assoc.
    - done. }
  unfold bind at 1. rewrite Hlookup. unfold bind at 1.
  destruct (SearchProviders env fuel (byNumber npi) _) as [[[[|p ps] [err|]]|] w1]; try done.
  unfold bind at 1. unfold getClient at 1. unfold bind at 1. unfold emit at 1.
  unfold afterStore, storeEvents.
  destruct (enabled (cache (wClient w1))) eqn:Hen1.
  - unfold bind at 1. rewrite setCached_run. unfold ret. cbn.
    rewrite Hen1. by rewrite <- app_assoc.
  - unfold bind, ret. done.
Qed.

Lemma cached_Some (c : Client Provider) now npi p :
  cached c now npi = Some p <->
  enabled (cache c) = true /\
  exists entry, data (cache c) !! npi = Some entry /\
                now <= expiresAt entry /\ provider entry = Some p.
Proof.
  unfold cached, After. destruct (enabled (cache c)); [|split; [done|by intros [? _]]].
  destruct (data (cache c) !! npi) as [entry|].
  - case_bool_decide as Hexp.
    + split; [done|]. intros (_ & entry' & [= <-] & Hle & _). lia.
    + split.
      * intros Hp. split; [done|]. exists entry. repeat split; [lia|done].
      * by intros (_ & entry' & [= <-] & _ & Hp).
  - split; [done|]. by intros (_ & entry' & ? & _).
Qed.

(** What a fetch leaves behind: the world it was given plus events,
    with at most the entry of its own key replaced. *)
Lemma GetProviderByNPI_world env fuel npi (w : World Provider) :
  exists evs,
    wEvents (snd (GetProviderByNPI env fuel npi w)) = wEvents w ++ evs /\
    (wClient (snd (GetProviderByNPI env fuel npi w)) = wClient w \/
     exists p,
       fst (GetProviderByNPI env fuel npi w) = Some (Some p, None) /\
       enabled (cache (wClient w)) = true /\
       cached (wClient w) (nowLookup env) npi = None /\
       wClient (snd (GetProviderByNPI env fuel npi w))
       = {| baseURL := baseURL (wClient w); retry := retry (wClient w);
            cache := {| enabled := true;
                        data := <[npi := {| provider := Some p;
                                            expiresAt := Add (nowStore env) defaultTTL |}]>
                                  (data (cache (wClient w))) |} |}).
Proof.
  destruct (decide (npi = "")) as [->|Hnpi].
  { exists []. simpl. rewrite app_nil_r. by split; [|left]. }
  destruct (cached (wClient w) (nowLookup env) npi) as [p|] eqn:Hc.
  { rewrite (GetProviderByNPI_hit env fuel npi w p) by done.
    eexists. split; [done|by left]. }
  rewrite GetProviderByNPI_miss by done.
  destruct (SearchProviders_events env fuel (byNumber npi)
              (addEvents w (lookupEvents (enabled (cache (wClient w))) npi)))
    as (evs & Hsnd & _).
  destruct (SearchProviders env fuel (byNumber npi) _) as [res w1].
  simpl in Hsnd. subst w1. rewrite addEvents_app.
  destruct res as [[[|p ps] [err|]]|]; try (eexists; split; [done|by left]).
  unfold afterStore. cbn [snd fst wClient wEvents addEvents].
  eexists. split; [by rewrite <- app_assoc|].
  destruct (enabled (cache (wClient w))) eqn:Hen; [|by left].
  right. by exists p.
Qed.

(** X6: a fetch returns a provider and a nil error, or no provider and
    an error, never both and never neither. *)
Theorem GetProviderByNPI_result_shape env fuel npi (w : World Provider) p e :
  fst (GetProviderByNPI env fuel npi w) = Some (p, e) ->
  (is_Some p /\ e = None) \/ (p = None /\ is_Some e).
Proof.
  destruct (decide (npi = "")) as [->|Hnpi].
  { simpl. intros [= <- <-]. right. by split; [|eexists]. }
  destruct (cached (wClient w) (nowLookup env) npi) as [q|] eqn:Hc.
  { rewrite (GetProviderByNPI_hit env fuel npi w q) by done.
    simpl. intros [= <- <-]. left. by split; [eexists|]. }
  rewrite GetProviderByNPI_miss by done.
  destruct (SearchProviders env fuel (byNumber npi) _) as [[[[|q qs] [err|]]|] w1];
    simpl; intros [= <- <-]; try (right; by split; [|eexists]).
  left. by split; [eexists|].
Qed.

(** X7: with the cache enabled and an entry for the key that has not
    expired, a fetch returns the cached provider without reaching the
    transport: its only events are the read of the flag and the locked
    load, and the client is as it was, whatever the transport would
    have answered. *)
Theorem GetProviderByNPI_cache_hit env fuel npi (w : World Provider) entry p :
  npi <> "" ->
  enabled (cache (wClient w)) = true ->
  data (cache (wClient w)) !! npi = Some entry ->
  provider entry = Some p ->
  nowLookup env <= expiresAt entry ->
  GetProviderByNPI env fuel npi w
  = (Some (Some p, None),
     addEvents w [EvCacheEnabled true; EvRLock; EvCacheLoad npi; EvRUnlock]) /\
  attempts (wEvents (snd (GetProviderByNPI env fuel npi w))) = attempts (wEvents w).
Proof.
  intros Hnpi Hen Hentry Hp Hlive.
  rewrite (GetProviderByNPI_hit env fuel npi w p); [|done|].
  - split; [done|]. simpl. rewrite attempts_app.
    change (attempts (lookupEvents true npi)) with 0%nat. lia.
  - apply cached_Some. split; [done|]. by exists entry.
Qed.

(** X8: with the cache enabled, after a fetch that returned a provider
    the cache holds an entry for the key with that provider, and every
    later fetch of the key whose lookup is not after the expiry of that
    entry returns the same provider from the cache, without reaching
    the transport; when the first fetch reached the transport, the
    expiry is the time of its store plus the TTL. *)
Theorem GetProviderByNPI_then_cached env1 fuel1 npi (w w1 : World Provider) p :
  enabled (cache (wClient w)) = true ->
  GetProviderByNPI env1 fuel1 npi w = (Some (Some p, None), w1) ->
  exists entry,
    data (cache (wClient w1)) !! npi = Some entry /\
    provider entry = Some p /\
    ((attempts (wEvents w) < attempts (wEvents w1))%nat ->
     expiresAt entry = nowStore env1 + defaultTTL) /\
    forall env2 fuel2,
      nowLookup env2 <= expiresAt entry ->
      GetProviderByNPI env2 fuel2 npi w1
      = (Some (Some p, None), addEvents w1 (lookupEvents true npi)).
Proof.
  intros Hen Hrun.
  destruct (decide (npi = "")) as [->|Hnpi]; [done|].
  destruct (cached (wClient w) (nowLookup env1) npi) as [q|] eqn:Hc.
  - rewrite (GetProviderByNPI_hit env1 fuel1 npi w q) in Hrun by done.
    injection Hrun as -> <-.
    pose proof (proj1 (cached_Some _ _ _ _) Hc) as (_ & entry & Hentry & Hlive & Hp).
    exists entry. cbn [wClient addEvents]. repeat split; try done.
    + unfold addEvents. cbn [wEvents]. rewrite attempts_app.
      change (attempts (lookupEvents true npi)) with 0%nat. lia.
    + intros env2 fuel2 Hle. apply GetProviderByNPI_hit; [done|].
      apply cached_Some. cbn [wClient addEvents]. split; [done|]. by exists entry.
  - rewrite GetProviderByNPI_miss in Hrun by done.
    destruct (SearchProviders_events env1 fuel1 (byNumber npi)
                (addEvents w (lookupEvents (enabled (cache (wClient w))) npi)))
      as (evs & Hsnd & _).
    destruct (SearchProviders env1 fuel1 (byNumber npi) _) as [res w'].
    simpl in Hsnd. subst w'.
    destruct res as [[[|q qs] [err|]]|]; try done.
    injection Hrun as -> <-.
    unfold afterStore. cbn [wClient addEvents]. rewrite Hen. cbn [cache data].
    eexists. split; [apply lookup_insert_eq|]. split; [done|]. split; [done|].
    intros env2 fuel2 Hle. apply GetProviderByNPI_hit; [done|].
    apply cached_Some. cbn [wClient cache enabled data]. split; [done|].
    eexists. split; [apply lookup_insert_eq|]. by split.
Qed.

(** X9: a fetch never changes the configuration of the client nor the
    entry of any other key, and it changes the cache only when it
    returns a provider it fetched from the transport: a fetch that
    returns an error, or a cached provider, leaves the client as it
    was. *)
Theorem GetProviderByNPI_frame env fuel npi (w : World Provider) :
  let w' := snd (GetProviderByNPI env fuel npi w) in
  baseURL (wClient w') = baseURL (wClient w) /\
  retry (wClient w') = retry (wClient w) /\
  enabled (cache (wClient w')) = enabled (cache (wClient w)) /\
  (forall k, k <> npi -> data (cache (wClient w')) !! k = data (cache (wClient w)) !! k) /\
  ((forall p, fst (GetProviderByNPI env fuel npi w) <> Some (Some p, None)) ->
   wClient w' = wClient w) /\
  (attempts (wEvents w') = attempts (wEvents w) -> wClient w' = wClient w).
Proof.
  intros w'. subst w'.
  destruct (GetProviderByNPI_world env fuel npi w)
    as (evs & Hevs & [Hsame|(p & Hret & Hen & Hmiss & Hstored)]).
  - rewrite Hsame. by repeat split.
  - rewrite Hstored. cbn [baseURL retry cache enabled data].
    repeat split; try done.
    + intros k Hk. by rewrite lookup_insert_ne.
    + intros Hno. by destruct (Hno p).
    + intros Hatt. exfalso. revert Hatt.
      assert (Hnpi : npi <> "").
      { intros ->. simpl in Hret. done. }
      rewrite GetProviderByNPI_miss by done.
      destruct (SearchProviders_events env fuel (byNumber npi)
                  (addEvents w (lookupEvents (enabled (cache (wClient w))) npi)))
        as (evs' & Hsnd & _ & Hone).
      rewrite GetProviderByNPI_miss in Hret by done.
      destruct (SearchProviders env fuel (byNumber npi) _) as [res w1] eqn:Hs.
      simpl in Hsnd. subst w1.
      destruct res as [[[|q qs] [err|]]|]; try done.
      unfold afterStore. cbn [snd wEvents addEvents].
      rewrite !attempts_app.
      assert (1 <= attempts evs')%nat; [|lia].
      destruct fuel as [|fuel].
      { rewrite SearchProviders_unfold in Hs. simpl in Hs. done. }
      destruct (decide (0 <= MaxRetries (retry (wClient w)))) as [HR|HR];
        [apply Hone; simpl; [done|lia]|].
      rewrite SearchProviders_unfold in Hs.
      unfold doRequestWithRetry in Hs. rewrite retryLoop_exit in Hs by (simpl; lia).
      simpl in Hs. done.
Qed.

Lemma doRequestWithRetry_first_ok env fuel url result (w : World Provider) res :
  0 <= MaxRetries (retry (wClient w)) ->
  (0 < fuel)%nat ->
  doRequest (httpDo env 0) url result = (res, None) ->
  doRequestWithRetry env fuel url result w
  = (Some (res, None), addEvents w [EvAttempt 0 url]).
Proof.
  intros HR Hfuel Hdo. unfold doRequestWithRetry. destruct fuel as [|fuel]; [lia|].
  rewrite retryLoop_attempt by (done || lia). by rewrite Hdo.
Qed.

(** X10: on a cache miss, when the first attempt is answered with
    status 200 and a body that decodes, a fetch makes that one attempt
    and looks at the list of results only: an empty list gives the
    error [no provider found with NPI ...] (not a wrapped transport
    error) and the client is left as it was; otherwise the first
    provider of the list is returned and, when the cache is enabled,
    stored under the key with the TTL. *)
Theorem GetProviderByNPI_first_result env fuel npi (w : World Provider) body response :
  npi <> "" ->
  cached (wClient w) (nowLookup env) npi = None ->
  0 <= MaxRetries (retry (wClient w)) ->
  (0 < fuel)%nat ->
  httpDo env 0 (apiURL (wClient w) (byNumber npi)) = Response 200 body ->
  jsonDecode body {| ResultCount := 0; Results := [] |} = (response, None) ->
  let w1 := addEvents w (lookupEvents (enabled (cache (wClient w))) npi
                         ++ [EvAttempt 0 (apiURL (wClient w) (byNumber npi))]) in
  GetProviderByNPI env fuel npi w
  = match Results response with
    | [] => (Some (None, Some (errorString ("no provider found with NPI " +:+ npi))), w1)
    | p :: _ => (Some (Some p, None), afterStore (nowStore env) npi p w1)
    end.
Proof.
  intros Hnpi Hmiss HR Hfuel Hdo Hdec w1. subst w1.
  rewrite GetProviderByNPI_miss by done.
  rewrite SearchProviders_unfold. cbn [wClient addEvents].
  rewrite (doRequestWithRetry_first_ok env fuel _ _ _ response); cbn [wClient]; try done.
  - cbn [fst snd]. rewrite addEvents_app. by destruct (Results response).
  - unfold doRequest. rewrite Hdo. simpl. by rewrite Hdec.
Qed.

(** X11: an error of a fetch is the rejection of the empty key, the
    report that the registry has no such provider, or the error of the
    retry engine wrapped twice (by [SearchProviders] and by the fetch),
    that error being a cancellation, an exhaustion or a fatal
    [*APIError]. *)
Theorem GetProviderByNPI_error_kinds env fuel npi (w : World Provider) e :
  fst (GetProviderByNPI env fuel npi w) = Some (None, Some e) ->
  (npi = "" /\ e = errorString "npi cannot be empty") \/
  (npi <> "" /\ e = errorString ("no provider found with NPI " +:+ npi)) \/
  (npi <> "" /\
   exists cause,
     e = wrapError ("failed to get provider by NPI " +:+ npi +:+ ": ")
           (wrapError "search providers failed: " cause) /\
     Unwrap e = Some (wrapError "search providers failed: " cause) /\
     (cancelledError env cause \/
      exhaustedError env (apiURL (wClient w) (byNumber npi)) cause \/
      fatalError env (apiURL (wClient w) (byNumber npi)) cause)).
Proof.
  destruct (decide (npi = "")) as [->|Hnpi].
  { simpl. intros [= <-]. by left. }
  destruct (cached (wClient w) (nowLookup env) npi) as [q|] eqn:Hc.
  { by rewrite (GetProviderByNPI_hit env fuel npi w q) by done. }
  rewrite GetProviderByNPI_miss by done.
  rewrite SearchProviders_unfold. cbn [wClient addEvents].
  destruct (doRequestWithRetry env fuel _ _ _) as [res w1] eqn:Hrun.
  cbn [fst snd].
  destruct res as [[response [cause|]]|]; cbn [fst]; [| |done].
  - intros [= <-]. right. right. split; [done|]. exists cause.
    split; [done|]. split; [done|].
    unfold doRequestWithRetry in Hrun.
    eapply (retryLoop_error_kinds env _ fuel 0 None).
    + intros last [=].
    + by rewrite Hrun.
  - destruct (Results response) as [|p ps]; [|done].
    intros [= <-]. right. left. done.
Qed.

End SingleFetch.

(** ** The search *)

Section Search.

Context {Provider : Type} {rt : Runtime Provider}.

(** The retry engine returns nil only from an attempt that succeeded. *)
Lemma retryLoop_success_attempted env url fuel :
  forall attempt lastErr result (w : World Provider) res,
  fst (retryLoop env url fuel attempt lastErr result w) = Some (res, None) ->
  (attempts (wEvents w)
   < attempts (wEvents (snd (retryLoop env url fuel attempt lastErr result w))))%nat /\
  exists n r, doRequest (httpDo env n) url r = (res, None).
Proof.
  induction fuel as [|fuel IH]; intros attempt lastErr result w res Hret; [done|].
  destruct (decide (attempt <= MaxRetries (retry (wClient w)))) as [Hle|Hgt].
  2:{ rewrite retryLoop_exit in Hret by lia. done. }
  assert (Hgrow :
    (attempts (wEvents w)
     < attempts (wEvents (addEvents w (waitEvents (retry (wClient w)) attempt
                                       ++ [EvAttempt attempt url]))))%nat).
  { unfold addEvents. cbn [wEvents]. rewrite !attempts_app, attempts_waitEvents.
    change (attempts [EvAttempt attempt url]) with 1%nat. lia. }
  assert (Hcont :
    retryLoop env url (S fuel) attempt lastErr result w
    = match doRequest (httpDo env attempt) url result with
      | (result', None) =>
          (Some (result', None),
           addEvents w (waitEvents (retry (wClient w)) attempt ++ [EvAttempt attempt url]))
      | (result', Some err) =>
          if negb (shouldRetry err)
          then (Some (result', Some err),
                addEvents w (waitEvents (retry (wClient w)) attempt
                             ++ [EvAttempt attempt url]))
          else retryLoop env url fuel (wrapInt (attempt + 1)) (Some err) result'
                 (addEvents w (waitEvents (retry (wClient w)) attempt
                               ++ [EvAttempt attempt url]))
      end ->
    (attempts (wEvents w)
     < attempts (wEvents (snd (retryLoop env url (S fuel) attempt lastErr result w))))%nat /\
    exists n r, doRequest (httpDo env n) url r = (res, None)).
  { intros Heq. rewrite Heq in Hret |- *.
    destruct (doRequest (httpDo env attempt) url result) as [result' [err|]] eqn:Hdo.
    - destruct (shouldRetry err); simpl in Hret |- *; [|done].
      destruct (IH _ _ _ _ _ Hret) as [Hlt Hfrom]. split; [lia|done].
    - simpl in Hret. injection Hret as <-. split; [done|]. by exists attempt, result. }
  destruct (ctxDone env attempt) as [ctxErr|] eqn:Hdone;
    [destruct (decide (0 < attempt)) as [Hp|Hz]|].
  - rewrite (retryLoop_cancel _ _ _ _ _ _ _ ctxErr) in Hret by done. done.
  - apply Hcont. apply retryLoop_attempt; [done|lia].
  - apply Hcont. by apply retryLoop_attempt.
Qed.

(** X21: [SearchProviders] leaves the client as it was and makes only
    the attempts and waits of the retry engine, each attempt on the
    one URL built from the options.  When it returns results they are
    the list decoded by an attempt that succeeded, and at least one
    attempt was made; when it returns an error the list is nil and the
    error is that of the retry engine, wrapped once. *)
Theorem SearchProviders_outcome env fuel opts (w : World Provider) :
  MaxRetries (retry (wClient w)) < maxInt ->
  exists evs,
    snd (SearchProviders env fuel opts w) = addEvents w evs /\
    Forall (retryEvent (retry (wClient w)) (apiURL (wClient w) opts)) evs /\
    (forall ps,
       fst (SearchProviders env fuel opts w) = Some (ps, None) ->
       (0 < attempts evs)%nat /\
       exists n r response,
         doRequest (httpDo env n) (apiURL (wClient w) opts) r = (response, None) /\
         ps = Results response) /\
    (forall ps e,
       fst (SearchProviders env fuel opts w) = Some (ps, Some e) ->
       ps = [] /\
       exists cause,
         e = wrapError "search providers failed: " cause /\
         (cancelledError env cause \/
          exhaustedError env (apiURL (wClient w) opts) cause \/
          fatalError env (apiURL (wClient w) opts) cause)).
Proof.
  intros Hint. rewrite SearchProviders_unfold. cbn [fst snd]. unfold doRequestWithRetry.
  set (url := apiURL (wClient w) opts).
  set (result := {| ResultCount := 0; Results := [] |}).
  destruct (retryLoop_bounded env url fuel 0 None result w) as (evs & Hsnd & Hall & _ & _);
    [lia|done|].
  exists evs. split; [done|]. split; [done|].
  pose proof (retryLoop_success_attempted env url fuel 0 None result w) as Hok.
  pose proof (retryLoop_error_kinds env url fuel 0 None result w) as Herr.
  rewrite Hsnd in Hok.
  destruct (fst (retryLoop env url fuel 0 None result w)) as [[response [err|]]|];
    split; try done.
  - intros ps e [= <- <-]. split; [done|]. exists err. split; [done|].
    apply (Herr response err); [intros last [=]|done].
  - intros ps [= <-]. destruct (Hok response eq_refl) as [Hlt (n & r & Hdo)].
    unfold addEvents in Hlt. cbn [wEvents] in Hlt. rewrite attempts_app in Hlt.
    split; [lia|]. by exists n, r, response.
Qed.

End Search.

(** ** The query parameters, key by key *)

Lemma buildQueryParams_setAll opts : buildQueryParams opts = setAll (paramsOf opts) ∅.
Proof. reflexivity. Qed.

Lemma setAll_lookup_notin l :
  forall (m : Values) (k : string), k ∉ keysOf l -> setAll l m !! k = m !! k.
Proof.
  induction l as [|[[b k'] v] l IH]; intros m k Hk; [done|].
  unfold keysOf in *. simpl in *. apply not_elem_of_cons in Hk as [Hne Hk].
  unfold setAll in *. simpl. rewrite IH by done.
  destruct b; [by apply Values_Set_lookup_ne|done].
Qed.

Lemma setAll_lookup l :
  forall (m : Values) (b : bool) (k v : string),
  NoDup (keysOf l) -> (b, k, v) ∈ l ->
  setAll l m !! k = if b then Some [v] else m !! k.
Proof.
  induction l as [|[[b' k'] v'] l IH]; intros m b k v Hnd Hin.
  - by apply elem_of_nil in Hin.
  - unfold keysOf in Hnd. simpl in Hnd. apply NoDup_cons in Hnd as [Hfresh Hnd].
    apply elem_of_cons in Hin as [[= -> -> ->]|Hin].
    + unfold setAll. simpl. fold (setAll l (if b' then Values_Set k' v' m else m)).
      rewrite setAll_lookup_notin by done.
      destruct b'; [apply Values_Set_lookup|done].
    + unfold setAll. simpl. fold (setAll l (if b' then Values_Set k' v' m else m)).
      rewrite (IH _ b k v) by done.
      destruct b; [done|].
      assert (k' <> k).
      { intros ->. apply Hfresh. apply list_elem_of_fmap. exists (false, k).
        split; [done|]. apply list_elem_of_fmap. by exists (false, k, v). }
      destruct b'; [by apply Values_Set_lookup_ne|done].
Qed.

Lemma paramsOf_keys opts : keysOf (paramsOf opts) = queryKeys.
Proof. reflexivity. Qed.

Lemma queryKeys_NoDup : NoDup queryKeys.
Proof.
  apply NoDup_ListNoDup. unfold queryKeys.
  repeat (constructor; [simpl; intuition discriminate|]). constructor.
Qed.

Ltac query_key :=
  rewrite buildQueryParams_setAll;
  erewrite setAll_lookup;
  [ rewrite ?lookup_empty; reflexivity
  | rewrite paramsOf_keys; apply queryKeys_NoDup
  | apply list_elem_of_In; simpl; tauto ].

(** X12: [buildQueryParams] always sends [version=2.1]; it sends each
    text filter exactly when the field is not empty, with the field as
    its value; [skip] exactly when [Skip] is positive; [pretty=true]
    exactly when [Pretty] is set; and no key besides these and
    [limit]. *)
Theorem buildQueryParams_keys opts :
  buildQueryParams opts !! "version" = Some ["2.1"] /\
  buildQueryParams opts !! "number"
  = (if nonEmpty (Number opts) then Some [Number opts] else None) /\
  buildQueryParams opts !! "enumeration_type"
  = (if nonEmpty (EnumerationType opts) then Some [EnumerationType opts] else None) /\
  buildQueryParams opts !! "first_name"
  = (if nonEmpty (FirstName opts) then Some [FirstName opts] else None) /\
  buildQueryParams opts !! "last_name"
  = (if nonEmpty (LastName opts) then Some [LastName opts] else None) /\
  buildQueryParams opts !! "organization_name"
  = (if nonEmpty (OrganizationName opts) then Some [OrganizationName opts] else None) /\
  buildQueryParams opts !! "taxonomy_description"
  = (if nonEmpty (TaxonomyDescription opts) then Some [TaxonomyDescription opts] else None) /\
  buildQueryParams opts !! "address_purpose"
  = (if nonEmpty (AddressPurpose opts) then Some [AddressPurpose opts] else None) /\
  buildQueryParams opts !! "city"
  = (if nonEmpty (City opts) then Some [City opts] else None) /\
  buildQueryParams opts !! "state"
  = (if nonEmpty (State opts) then Some [State opts] else None) /\
  buildQueryParams opts !! "postal_code"
  = (if nonEmpty (PostalCode opts) then Some [PostalCode opts] else None) /\
  buildQueryParams opts !! "country_code"
  = (if nonEmpty (CountryCode opts) then Some [CountryCode opts] else None) /\
  buildQueryParams opts !! "skip"
  = (if Skip opts >? 0 then Some [Itoa (Skip opts)] else None) /\
  buildQueryParams opts !! "pretty" = (if Pretty opts then Some ["true"] else None) /\
  (forall k : string, k ∉ queryKeys -> buildQueryParams opts !! k = None).
Proof.
  repeat split; try query_key.
  - rewrite buildQueryParams_setAll.
    rewrite (setAll_lookup _ _ true "version" "2.1"); [done| |].
    + rewrite paramsOf_keys. apply queryKeys_NoDup.
    + apply list_elem_of_In. simpl. tauto.
  - intros k Hk. rewrite buildQueryParams_setAll, setAll_lookup_notin; [done|].
    by rewrite paramsOf_keys.
Qed.

(** X13: the search a fetch by number makes sends exactly three
    parameters: the version, the number and [limit=1]. *)
Theorem buildQueryParams_byNumber npi :
  npi <> "" ->
  buildQueryParams (byNumber npi)
  = <["limit" := ["1"]]> (<["number" := [npi]]> (<["version" := ["2.1"]]> ∅)).
Proof.
  intros Hnpi. unfold buildQueryParams, byNumber.
  cbn [Number EnumerationType FirstName LastName OrganizationName TaxonomyDescription
       AddressPurpose City State PostalCode CountryCode Limit Skip Pretty].
  assert (Hn : nonEmpty npi = true) by (unfold nonEmpty; by apply bool_decide_eq_true_2).
  rewrite Hn. reflexivity.
Qed.

(** ** The cache between fetches *)

Section CacheMore.

Context {Provider : Type} {rt : Runtime Provider}.

(** X14: a tick of [cleanupCache] at [now] keeps exactly the entries
    whose expiry is not before [now], with their contents, leaves the
    configuration and the enabled flag as they were, and changes no
    answer of a lookup made at [now] or later: what it deletes
    [getCached] would not have returned. *)
Theorem cleanupCache_sweeps now (w : World Provider) :
  let w' := snd (cleanupCache now w) in
  (forall npi entry,
     data (cache (wClient w')) !! npi = Some entry <->
     data (cache (wClient w)) !! npi = Some entry /\ now <= expiresAt entry) /\
  baseURL (wClient w') = baseURL (wClient w) /\
  retry (wClient w') = retry (wClient w) /\
  enabled (cache (wClient w')) = enabled (cache (wClient w)) /\
  wEvents w' = wEvents w ++ [EvLock; EvUnlock] /\
  (forall t npi, now <= t -> fst (getCached t npi w') = fst (getCached t npi w)).
Proof.
  intros w'.
  assert (Hlook : forall npi entry,
            data (cache (wClient w')) !! npi = Some entry <->
            data (cache (wClient w)) !! npi = Some entry /\ now <= expiresAt entry).
  { intros npi entry. subst w'. rewrite cleanupCache_lookup. intuition lia. }
  split; [exact Hlook|]. subst w'.
  unfold cleanupCache, bind, emit, getClient, putCacheData, ret in *. simpl in *.
  repeat split; [by rewrite <- app_assoc|].
  intros t npi Hle.
  destruct (data (cache (wClient w)) !! npi) as [entry|] eqn:Hentry.
  - destruct (decide (now <= expiresAt entry)) as [Hlive|Hdead].
    + by rewrite (proj2 (Hlook npi entry) (conj Hentry Hlive)).
    + destruct (filter _ (data (cache (wClient w))) !! npi) as [entry'|] eqn:Hf.
      * apply Hlook in Hf as [Hsame Hlive]. simplify_eq. lia.
      * unfold After. by rewrite bool_decide_eq_true_2 by lia.
  - destruct (filter _ (data (cache (wClient w))) !! npi) as [entry'|] eqn:Hf; [|done].
    apply Hlook in Hf as [Hsame _]. by rewrite Hentry in Hsame.
Qed.

(** X15: [setCached] replaces the whole entry of its key (a second
    store overwrites the first, expiry included) and touches nothing
    else: the lookup of every other key answers as before, and the
    enabled flag and the configuration stay. *)
Theorem setCached_frame (w : World Provider) npi p0 p1 (t0 t1 : Time) :
  let w1 := snd (setCached t0 npi p0 w) in
  let w2 := snd (setCached t1 npi p1 w1) in
  (forall t k, k <> npi -> fst (getCached t k w1) = fst (getCached t k w)) /\
  data (cache (wClient w2))
  = <[npi := {| provider := p1; expiresAt := t1 + defaultTTL |}]> (data (cache (wClient w))) /\
  enabled (cache (wClient w1)) = enabled (cache (wClient w)) /\
  baseURL (wClient w1) = baseURL (wClient w) /\
  retry (wClient w1) = retry (wClient w).
Proof.
  intros w1 w2. subst w1 w2. rewrite !setCached_run. cbn [snd wClient cache data].
  repeat split.
  - intros t k Hk. rewrite !getCached_run. cbn [fst wClient cache data].
    by rewrite lookup_insert_ne.
  - by rewrite insert_insert_eq.
Qed.

Lemma applyOptions_fields opts :
  forall c : Client Provider,
  data (cache (applyOptions c opts)) = data (cache c) /\
  enabled (cache (applyOptions c opts)) = enabled (cache c) || existsb isWithCache opts /\
  (existsb isWithRetry opts = false -> retry (applyOptions c opts) = retry c) /\
  (existsb isWithBaseURL opts = false -> baseURL (applyOptions c opts) = baseURL c).
Proof.
  induction opts as [|opt opts IH]; intros c.
  { simpl. by rewrite orb_false_r. }
  unfold applyOptions in *. simpl foldl.
  destruct (IH (applyOption opt c)) as (Hd & He & Hr & Hb).
  rewrite Hd, He. destruct opt; simpl; repeat split; try done;
    rewrite ?orb_true_r; auto.
Qed.

(** X16: the client [NewClient] builds starts with an empty cache; the
    cache is enabled exactly when some option is a [WithCache]; the
    last [WithRetry] and the last [WithBaseURL] of the list win, and
    without one the defaults stand (three retries, 100 ms, 5 s, the
    registry's URL). *)
Theorem NewClient_options (opts : list ClientOption) :
  data (cache (NewClient (Provider := Provider) opts)) = ∅ /\
  (enabled (cache (NewClient (Provider := Provider) opts)) = true <->
   exists ttl, WithCache ttl ∈ opts) /\
  (forall before config after,
     opts = before ++ WithRetry config :: after -> existsb isWithRetry after = false ->
     retry (NewClient (Provider := Provider) opts) = config) /\
  (forall before u after,
     opts = before ++ WithBaseURL u :: after -> existsb isWithBaseURL after = false ->
     baseURL (NewClient (Provider := Provider) opts) = u) /\
  (existsb isWithRetry opts = false ->
   retry (NewClient (Provider := Provider) opts) = defaultRetry /\
   MaxRetries defaultRetry = 3 /\ InitialDelay defaultRetry = 100 * Millisecond /\
   MaxDelay defaultRetry = 5 * Second) /\
  (existsb isWithBaseURL opts = false ->
   baseURL (NewClient (Provider := Provider) opts) = DefaultBaseURL).
Proof.
  unfold NewClient.
  set (c0 := {| baseURL := DefaultBaseURL; retry := defaultRetry;
                cache := {| enabled := false; data := ∅ |} |} : Client Provider).
  fold (applyOptions c0 opts).
  destruct (applyOptions_fields opts c0) as (Hd & He & Hr & Hb).
  split; [done|]. split; [|split; [|split; [|split]]].
  - rewrite He. simpl. rewrite existsb_exists. split.
    + intros (opt & Hin & Hc). destruct opt; try done. eexists. by apply list_elem_of_In.
    + intros (ttl & Hin). exists (WithCache ttl). split; [by apply list_elem_of_In|done].
  - intros before config after -> Hafter. unfold applyOptions. rewrite foldl_app.
    destruct (applyOptions_fields after
                (applyOption (WithRetry config) (foldl (fun c opt => applyOption opt c) c0 before)))
      as (_ & _ & Hr' & _).
    unfold applyOptions in Hr'. etrans; [exact (Hr' Hafter)|done].
  - intros before u after -> Hafter. unfold applyOptions. rewrite foldl_app.
    destruct (applyOptions_fields after
                (applyOption (WithBaseURL u) (foldl (fun c opt => applyOption opt c) c0 before)))
      as (_ & _ & _ & Hb').
    unfold applyOptions in Hb'. etrans; [exact (Hb' Hafter)|done].
  - intros Hno. by rewrite Hr.
  - intros Hno. by rewrite Hb.
Qed.

End CacheMore.

(** ** The batch at its return *)

Section BatchReturn.

Context {Provider : Type}.

Lemma exited_outcomes (l : list (goroutine Provider)) :
  Forall (fun g => exited g = true) l ->
  (length (omap storedBy l) + length (omap sentBy l) = length l)%nat.
Proof.
  induction 1 as [|g l Hg _ IH]; [done|]. csimpl.
  unfold exited, storedBy, sentBy in *.
  destruct (gPc g) as [| | | | | |[p|e]]; try done; simpl; lia.
Qed.

Lemma stored_keys_sublist (l : list (goroutine Provider)) :
  sublist (omap storedBy l).*1 (gNpi <$> l).
Proof.
  induction l as [|g l IH]; [constructor|]. csimpl.
  destruct (storedBy g) as [[k p]|] eqn:Hst.
  - assert (k = gNpi g) as ->.
    { unfold storedBy in Hst. destruct (gPc g) as [| | | |[]|[]|[]]; by simplify_eq. }
    csimpl. by constructor.
  - by constructor.
Qed.

Lemma NoDup_fst_unique {A B} (l : list (A * B)) x y1 y2 :
  NoDup l.*1 -> (x, y1) ∈ l -> (x, y2) ∈ l -> y1 = y2.
Proof.
  intros Hnd [i Hi]%list_elem_of_lookup_1 [j Hj]%list_elem_of_lookup_1.
  assert (i = j) as <-; [|congruence].
  apply (NoDup_lookup _ i j x Hnd); by rewrite list_lookup_fmap, ?Hi, ?Hj.
Qed.

Lemma results_size npis (s : BatchState Provider) :
  Inv npis s ->
  (size (bResults s) <= length (successes s))%nat /\
  (NoDup npis -> size (bResults s) = length (successes s)).
Proof.
  intros HI. rewrite <- length_map_to_list. split.
  - apply submseteq_length, NoDup_submseteq; [apply NoDup_map_to_list|].
    intros [k p] Hin. apply elem_of_map_to_list in Hin. by apply (inv_res_in _ _ HI).
  - intros Hnd. apply Permutation_length, NoDup_Permutation; [apply NoDup_map_to_list| |].
    + assert (Hkeys : NoDup (successes s).*1).
      { eapply sublist_NoDup; [|apply stored_keys_sublist].
        rewrite <- (inv_keys _ _ HI) in Hnd. by apply NoDup_app in Hnd as [? _]. }
      by apply NoDup_fmap_1 in Hkeys.
    + intros [k p]. rewrite elem_of_map_to_list. split; [apply (inv_res_in _ _ HI)|].
      intros Hin. destruct (inv_res_dom _ _ HI k p Hin) as [p' Hp'].
      rewrite Hp'. f_equal.
      pose proof (inv_res_in _ _ HI k p' Hp') as Hin'.
      assert (Hkeys : NoDup (successes s).*1).
      { eapply sublist_NoDup; [|apply stored_keys_sublist].
        rewrite <- (inv_keys _ _ HI) in Hnd. by apply NoDup_app in Hnd as [? _]. }
      by eapply (NoDup_fst_unique (successes s)).
Qed.

(** X17: when the batch returns, every key has had exactly one fetch
    and each fetch either stored its provider or sent its error: the
    successes and the failures add up to [len(npis)].  The map holds at
    most one entry per success, and exactly one when the keys are
    distinct. *)
Theorem GetProvidersByNPIs_counts npis acts results err :
  npis <> [] ->
  GetProvidersByNPIs (Provider := Provider) npis acts = Some (results, err) ->
  exists s res,
    run acts (batchInit npis) = Some s /\ results = Some res /\
    (length (successes s) + length (failures s) = length npis)%nat /\
    length (bErrChan s) = length (failures s) /\
    (size res <= length (successes s))%nat /\
    (NoDup npis -> (size res + length (failures s) = length npis)%nat).
Proof.
  intros Hne Hret. unfold GetProvidersByNPIs in Hret.
  rewrite bool_decide_eq_false_2 in Hret by done.
  destruct (run acts (batchInit npis)) as [s|] eqn:Hrun; [|done].
  destruct (bMain s) as [| |res err'] eqn:Hmain; try done. simplify_eq.
  assert (Hreach : reachable npis s) by (by exists acts).
  pose proof (reachable_Inv _ _ Hreach) as HI.
  destruct (returned_state _ _ _ _ Hreach Hmain) as (Hkeys & Hexit & -> & ->).
  pose proof (exited_outcomes _ Hexit) as Hsum.
  destruct (results_size _ _ HI) as [Hle Heq].
  assert (Hlen : length npis = length (bGo s)) by (by rewrite <- Hkeys, length_fmap).
  exists s, (bResults s). unfold successes, failures in *.
  repeat split; try done.
  - lia.
  - by rewrite (inv_err _ _ HI).
  - intros Hnd. rewrite (Heq Hnd). lia.
Qed.


Lemma countGo_exited (f : goroutine Provider -> bool) l :
  Forall (fun g => exited g = true) l ->
  (forall g, exited g = true -> f g = false) -> countGo f l = 0%nat.
Proof.
  intros Hexit Hf. unfold countGo. induction Hexit as [|g l Hg _ IH]; [done|].
  simpl. rewrite (Hf g Hg). simpl. apply IH.
Qed.

(** X19: a batch that has returned holds nothing back: the semaphore
    is empty, the [WaitGroup] counter is zero, [errChan] holds one
    error per failed fetch and never more than its capacity, and no
    goroutine has a step left. *)
Theorem GetProvidersByNPIs_quiescent npis (s : BatchState Provider) res err :
  reachable npis s -> bMain s = MReturned res err ->
  bSem s = 0%nat /\ bWg s = 0%nat /\
  (length (bErrChan s) <= bErrCap s)%nat /\
  forall a, step a s = None.
Proof.
  intros Hreach Hmain. pose proof (reachable_Inv _ _ Hreach) as HI.
  destruct (returned_state _ _ _ _ Hreach Hmain) as (Hkeys & Hexit & _ & _).
  assert (Hnone : forall f : goroutine Provider -> bool,
            (forall g, exited g = true -> f g = false) -> countGo f (bGo s) = 0%nat)
    by (intros f; by apply countGo_exited).
  split; [|split; [|split]].
  - rewrite (inv_sem _ _ HI). apply Hnone. intros g. unfold exited, holdsSlot.
    by destruct (gPc g).
  - rewrite (inv_wg _ _ HI). apply Hnone. intros g. unfold running. by intros ->.
  - rewrite (inv_cap _ _ HI), (inv_err _ _ HI), <- Hkeys, length_fmap.
    pose proof (exited_outcomes _ Hexit). unfold failures. lia.
  - intros [|i|i r]; simpl.
    + unfold stepMain. by rewrite Hmain.
    + unfold stepGo. destruct (bGo s !! i) as [g|] eqn:Hg; [|done].
      pose proof (proj1 (Forall_forall _ _) Hexit g (list_elem_of_lookup_2 _ _ _ Hg)) as Hex.
      unfold exited in Hex. by destruct (gPc g).
    + unfold stepFetched. destruct (bGo s !! i) as [g|] eqn:Hg; [|done].
      pose proof (proj1 (Forall_forall _ _) Hexit g (list_elem_of_lookup_2 _ _ _ Hg)) as Hex.
      unfold exited in Hex. by destruct (gPc g).
Qed.

(** X20: the send on the semaphore is the only place where a goroutine
    of the batch can wait.  Once its fetch has returned it can always
    take its next step: [errChan], of capacity [len(npis)], has room
    for its error, the semaphore holds the token it takes back, and
    [wg.Done()] finds the counter positive. *)
Theorem goroutine_never_blocks_past_fetch npis (s : BatchState Provider) i g :
  reachable npis s -> bGo s !! i = Some g -> pastFetch g = true ->
  is_Some (step (ActGo i) s) /\
  (forall e, gPc g = GSendErr e -> (length (bErrChan s) < bErrCap s)%nat) /\
  (holdsSlot g = true -> (0 < bSem s)%nat) /\
  (0 < bWg s)%nat.
Proof.
  intros Hreach Hi Hpast. pose proof (reachable_Inv _ _ Hreach) as HI.
  assert (Hwg : (0 < bWg s)%nat).
  { rewrite (inv_wg _ _ HI). eapply countGo_lookup; [done|].
    unfold running, exited. unfold pastFetch in Hpast. by destruct (gPc g). }
  assert (Hslot : holdsSlot g = true -> (0 < bSem s)%nat).
  { intros Hh. rewrite (inv_sem _ _ HI). by eapply countGo_lookup. }
  assert (Hroom : forall e, gPc g = GSendErr e -> (length (bErrChan s) < bErrCap s)%nat).
  { intros e He. rewrite (inv_cap _ _ HI), (inv_err _ _ HI), <- (inv_keys _ _ HI).
    rewrite length_app, length_fmap. unfold failures.
    assert (Hnone : sentBy g = None) by (unfold sentBy; by rewrite He).
    pose proof (omap_length_lt sentBy (bGo s) i g Hi Hnone). lia. }
  split; [|done].
  simpl. unfold stepGo. rewrite Hi. unfold pastFetch, holdsSlot in *.
  destruct (gPc g) as [| |e|p|r|r|r] eqn:Hg; try done.
  - rewrite bool_decide_eq_true_2 by eauto. by eexists.
  - rewrite bool_decide_eq_true_2 by auto. by eexists.
  - rewrite bool_decide_eq_true_2 by auto. by eexists.
Qed.

End BatchReturn.

(** ** The further properties on sample inputs *)

Lemma doRequestWithRetry_succeeds_after_witness :
  exists r evs,
    doRequestWithRetry (rt := sampleRuntime) (recoversAt 1) 4 "u" emptyResponse (freshWorld [])
    = (Some (fst (doRequest (rt := sampleRuntime) (httpDo (recoversAt 1) 1) "u" r), None),
       addEvents (freshWorld []) evs) /\
    attempts evs = Z.to_nat (1 + 1) /\
    waits evs = Z.to_nat 1.
Proof.
  apply (doRequestWithRetry_succeeds_after (rt := sampleRuntime) (recoversAt 1) "u"
           emptyResponse (freshWorld []) 4 1).
  - simpl. unfold DefaultMaxRetries. lia.
  - simpl. unfold DefaultMaxRetries, maxInt. lia.
  - intros k Hk result. assert (k = 0) as -> by lia. eexists. split; reflexivity.
  - intros k _. reflexivity.
  - intros r. reflexivity.
  - vm_compute. lia.
Defined.

Lemma doRequestWithRetry_bounded_witness :
  exists evs,
    snd (doRequestWithRetry (rt := sampleRuntime) (serverAlways 503 "busy") 10 "u"
           emptyResponse (freshWorld [WithRetry retryTwice]))
    = addEvents (freshWorld [WithRetry retryTwice]) evs /\
    Forall (retryEvent (rt := sampleRuntime) retryTwice "u") evs /\
    (attempts evs <= Z.to_nat (2 + 1))%nat /\
    (waits evs <= Z.to_nat 2)%nat.
Proof.
  apply (doRequestWithRetry_bounded (rt := sampleRuntime) (serverAlways 503 "busy") "u" 10
           emptyResponse (freshWorld [WithRetry retryTwice])).
  vm_compute. reflexivity.
Defined.

Lemma doRequest_error_retryable_witness :
  shouldRetry (APIError 404 "API returned status 404: gone") = false <->
  exists status body,
    Response 404 "gone" = Response status body /\
    status <> 200 /\ status < 500 /\ status <> 429.
Proof.
  apply (doRequest_error_retryable (rt := sampleRuntime) "u" (fun _ => Response 404 "gone")
           emptyResponse).
  reflexivity.
Defined.

Lemma doRequestWithRetry_error_kinds_witness :
  cancelledError (serverAlways 404 "gone") (APIError 404 "API returned status 404: gone") \/
  exhaustedError (rt := sampleRuntime) (serverAlways 404 "gone") "u"
    (APIError 404 "API returned status 404: gone") \/
  fatalError (rt := sampleRuntime) (serverAlways 404 "gone") "u"
    (APIError 404 "API returned status 404: gone").
Proof.
  apply (doRequestWithRetry_error_kinds (rt := sampleRuntime) (serverAlways 404 "gone") "u" 4
           emptyResponse (freshWorld []) emptyResponse).
  vm_compute. reflexivity.
Defined.

Lemma doRequestWithRetry_negative_budget_witness :
  doRequestWithRetry (rt := sampleRuntime) (serverAlways 200 "p") 4 "u" emptyResponse
    (freshWorld [WithRetry negativeRetry])
  = (Some (emptyResponse, Some (errorString "max retries exceeded: %!w(<nil>)")),
     freshWorld [WithRetry negativeRetry]) /\
  Unwrap (errorString "max retries exceeded: %!w(<nil>)") = None.
Proof.
  apply (doRequestWithRetry_negative_budget (rt := sampleRuntime) (serverAlways 200 "p") "u" 4
           emptyResponse (freshWorld [WithRetry negativeRetry])).
  - vm_compute. reflexivity.
  - lia.
Defined.

Lemma GetProviderByNPI_result_shape_witness :
  (is_Some (Some "p") /\ (None : option error) = None) \/
  ((Some "p" : option string) = None /\ is_Some (None : option error)).
Proof.
  apply (GetProviderByNPI_result_shape (rt := sampleRuntime) (serverAlways 200 "p") 5
           "1234567890" (freshWorld [])).
  vm_compute. reflexivity.
Defined.

Lemma GetProviderByNPI_cache_hit_witness :
  GetProviderByNPI (rt := sampleRuntime) (serverAlways 503 "busy") 5 "1234567890" fetchedWorld
  = (Some (Some "p", None),
     addEvents fetchedWorld
       [EvCacheEnabled true; EvRLock; EvCacheLoad "1234567890"; EvRUnlock]) /\
  attempts (wEvents (snd (GetProviderByNPI (rt := sampleRuntime) (serverAlways 503 "busy") 5
                            "1234567890" fetchedWorld)))
  = attempts (wEvents fetchedWorld).
Proof.
  apply (GetProviderByNPI_cache_hit (rt := sampleRuntime) (serverAlways 503 "busy") 5
           "1234567890" fetchedWorld {| provider := Some "p"; expiresAt := 5 * Minute |} "p").
  - discriminate.
  - reflexivity.
  - vm_compute. reflexivity.
  - reflexivity.
  - vm_compute. discriminate.
Defined.

Lemma GetProviderByNPI_then_cached_witness :
  exists entry,
    data (cache (wClient fetchedWorld)) !! "1234567890" = Some entry /\
    provider entry = Some "p" /\
    forall env2 fuel2,
      nowLookup env2 <= expiresAt entry ->
      GetProviderByNPI (rt := sampleRuntime) env2 fuel2 "1234567890" fetchedWorld
      = (Some (Some "p", None), addEvents fetchedWorld (lookupEvents true "1234567890")).
Proof.
  destruct (GetProviderByNPI_then_cached (rt := sampleRuntime) (serverAlways 200 "p") 5
              "1234567890" (freshWorld [WithCache Minute]) fetchedWorld "p")
    as (entry & Hentry & Hp & _ & Hlater).
  - reflexivity.
  - vm_compute. reflexivity.
  - exists entry. split; [exact Hentry|]. split; [exact Hp|exact Hlater].
Defined.

Lemma GetProviderByNPI_first_result_witness :
  GetProviderByNPI (rt := sampleRuntime) (serverAlways 200 "p") 5 "1234567890" (freshWorld [])
  = (Some (Some "p", None),
     afterStore 0 "1234567890" "p"
       (addEvents (freshWorld [])
          (lookupEvents false "1234567890"
           ++ [EvAttempt 0 (apiURL (rt := sampleRuntime) (wClient (freshWorld []))
                              (byNumber "1234567890"))]))).
Proof.
  apply (GetProviderByNPI_first_result (rt := sampleRuntime) (serverAlways 200 "p") 5
           "1234567890" (freshWorld []) "p" {| ResultCount := 1; Results := ["p"] |}).
  - discriminate.
  - reflexivity.
  - vm_compute. discriminate.
  - lia.
  - reflexivity.
  - reflexivity.
Defined.

Lemma GetProviderByNPI_error_kinds_witness :
  ("1234567890" = "" /\
   errorString "no provider found with NPI 1234567890" = errorString "npi cannot be empty") \/
  ("1234567890" <> "" /\
   errorString "no provider found with NPI 1234567890"
   = errorString ("no provider found with NPI " +:+ "1234567890")) \/
  ("1234567890" <> "" /\
   exists cause,
     errorString "no provider found with NPI 1234567890"
     = wrapError ("failed to get provider by NPI " +:+ "1234567890" +:+ ": ")
         (wrapError "search providers failed: " cause) /\
     Unwrap (errorString "no provider found with NPI 1234567890")
     = Some (wrapError "search providers failed: " cause) /\
     (cancelledError (serverAlways 200 "none") cause \/
      exhaustedError (rt := sampleRuntime) (serverAlways 200 "none")
        (apiURL (rt := sampleRuntime) (wClient (freshWorld [])) (byNumber "1234567890")) cause \/
      fatalError (rt := sampleRuntime) (serverAlways 200 "none")
        (apiURL (rt := sampleRuntime) (wClient (freshWorld [])) (byNumber "1234567890")) cause)).
Proof.
  apply (GetProviderByNPI_error_kinds (rt := sampleRuntime) (serverAlways 200 "none") 5
           "1234567890" (freshWorld [])).
  vm_compute. reflexivity.
Defined.

Lemma buildQueryParams_byNumber_witness :
  buildQueryParams (byNumber "1234567890")
  = <["limit" := ["1"]]> (<["number" := ["1234567890"]]> (<["version" := ["2.1"]]> ∅)).
Proof. apply (buildQueryParams_byNumber "1234567890"). discriminate. Defined.

Lemma GetProvidersByNPIs_counts_witness :
  exists (s : BatchState string) res,
    run threeKeysSchedule (batchInit threeKeys) = Some s /\
    Some threeKeysResults = Some res /\
    (length (successes s) + length (failures s) = length threeKeys)%nat /\
    (size res <= length (successes s))%nat.
Proof.
  destruct (GetProvidersByNPIs_counts (Provider := string) threeKeys threeKeysSchedule _ _
              ltac:(discriminate) threeKeys_returns)
    as (s & res & Hrun & Hres & Hsum & _ & Hle & _).
  exists s, res. split; [exact Hrun|]. split; [exact Hres|]. split; [exact Hsum|exact Hle].
Defined.


Lemma GetProvidersByNPIs_quiescent_witness :
  bSem (stateAfter threeKeys threeKeysSchedule) = 0%nat /\
  bWg (stateAfter threeKeys threeKeysSchedule) = 0%nat /\
  (length (bErrChan (stateAfter threeKeys threeKeysSchedule))
   <= bErrCap (stateAfter threeKeys threeKeysSchedule))%nat /\
  forall a, step a (stateAfter threeKeys threeKeysSchedule) = None.
Proof.
  apply (GetProvidersByNPIs_quiescent threeKeys (stateAfter threeKeys threeKeysSchedule)
           threeKeysResults
           (Some (errorString
                    ("batch fetch completed with 1 errors: " +:+
                     "failed to fetch NPI 9999999999: " +:+
                     "no provider found with NPI 9999999999")))
           (reachable_stateAfter threeKeys threeKeysSchedule ltac:(vm_compute; reflexivity))).
  vm_compute. reflexivity.
Defined.

Lemma goroutine_never_blocks_past_fetch_witness :
  is_Some (step (ActGo 6) (stateAfter sevenKeys sevenKeysOneFailed)) /\
  (0 < bWg (stateAfter sevenKeys sevenKeysOneFailed))%nat.
Proof.
  destruct (goroutine_never_blocks_past_fetch sevenKeys
              (stateAfter sevenKeys sevenKeysOneFailed) 6
              {| gNpi := "7"; gPc := GSendErr (errorString "no provider found with NPI 7") |}
              (reachable_stateAfter sevenKeys sevenKeysOneFailed
                 ltac:(vm_compute; reflexivity))
              ltac:(vm_compute; reflexivity) eq_refl)
    as (Hstep & _ & _ & Hwg).
  split; [exact Hstep|exact Hwg].
Defined.

Lemma SearchProviders_outcome_witness :
  exists evs,
    snd (SearchProviders (rt := sampleRuntime) (recoversAt 1) 5 (searchWithLimit 20)
           (freshWorld []))
    = addEvents (freshWorld []) evs /\
    Forall (retryEvent (rt := sampleRuntime) (retry (wClient (freshWorld [])))
              (apiURL (rt := sampleRuntime) (wClient (freshWorld [])) (searchWithLimit 20)))
           evs.
Proof.
  destruct (SearchProviders_outcome (rt := sampleRuntime) (recoversAt 1) 5 (searchWithLimit 20)
              (freshWorld []))
    as (evs & Hsnd & Hall & _).
  - vm_compute. reflexivity.
  - exists evs. split; [exact Hsnd|exact Hall].
Defined.
